(** * Reishandy_TextInput: the multi-line text-editing core of the plugin

    A shallow embedding of [Window_TextInput] (src/Reishandy_TextInput.js,
    v1.0.3), with the two older variants of the functions that differ
    (src/Reishandy_TextInput_old.js and src/TextInput.js) kept in modules
    of their own.

    Modelling choices.
    - A JavaScript string is a sequence of UTF-16 code units; it is modelled
      by [string], one [ascii] standing for one code unit.  The strings of
      the model hold characters of one code unit, which [for ... of]
      delivers one at a time ([JS.chars]); a surrogate pair, which it
      delivers as one string of two units, is not among them.  Where a
      property depends on the number of units of a character, the
      characters are quantified over as strings handed to [processChar],
      with their lengths stated.
    - Numbers that are indices or counts ([_cursorX], [_cursorY],
      [_maxLines]) are [Z]; pixel quantities are exact rationals [Q].
    - [Window_Base] belongs to the host engine, not to this repository: the
      methods and properties the core uses of it ([textWidth],
      [contentsWidth], [padding], [lineHeight], and the rectangle [x], [y],
      [width], [height]) are the fields of the class [WindowBase].
    - A method call on [undefined] raises a [TypeError]; the window keeps
      whatever was assigned before the raise.  Operations therefore return
      an [outcome]: the window together with how the call ended.
    - [refresh()] only repaints ([contents], [_visibleStartLine]) and reads
      the buffer and the caret; it is left out of the editing operations
      and modelled on its own, as is the blink timer.  The sound effects
      are left out. *)

From Stdlib Require Import ZArith QArith Qround Qabs List String Ascii Bool.
From Stdlib Require Import Lia Lqa.
Import ListNotations.

Local Open Scope Z_scope.

(** ** JavaScript string and array primitives *)

Module JS.

(** Relative index of [String.prototype.slice] and of
    [Array.prototype.splice]: a negative index counts from the end, and
    the result is clamped to [0 .. len]. *)
Definition relIndex (len i : Z) : Z :=
  if i <? 0 then Z.max (len + i) 0 else Z.min i len.

Definition len (s : string) : Z := Z.of_nat (String.length s).

(** [s.slice(a, b)] *)
Definition slice (s : string) (a b : Z) : string :=
  let from := relIndex (len s) a in
  let to := relIndex (len s) b in
  let span := Z.max (to - from) 0 in
  substring (Z.to_nat from) (Z.to_nat span) s.

(** [s.slice(a)] *)
Definition sliceFrom (s : string) (a : Z) : string :=
  slice s a (len s).

(** [s.substring(a, b)]: both ends clamped to [0 .. len], swapped when
    out of order. *)
Definition substringJS (s : string) (a b : Z) : string :=
  let a' := Z.min (Z.max a 0) (len s) in
  let b' := Z.min (Z.max b 0) (len s) in
  let from := Z.min a' b' in
  let to := Z.max a' b' in
  substring (Z.to_nat from) (Z.to_nat (to - from)) s.

(** [s.charAt(i)]: the one-unit string at [i], the empty string out of
    range. *)
Definition charAt (s : string) (i : Z) : string :=
  if (0 <=? i) && (i <? len s) then substring (Z.to_nat i) 1 s
  else EmptyString.

(** The strings delivered by [for (const char of s)] when every
    character of [s] is one code unit: one string of one unit per step. *)
Fixpoint chars (s : string) : list string :=
  match s with
  | EmptyString => []
  | String a s' => String a EmptyString :: chars s'
  end.

(** [a[i]] on an array without holes: [None] is [undefined]. *)
Definition index {A} (a : list A) (i : Z) : option A :=
  if i <? 0 then None else nth_error a (Z.to_nat i).

(** [a[i] = v] for an index that is in range; every assignment of the
    source follows a successful read of the same element, so the
    out-of-range behaviour of JavaScript (the array grows) never comes
    into play and the list is left as it is there. *)
Fixpoint setNth {A} (a : list A) (n : nat) (v : A) : list A :=
  match a, n with
  | [], _ => []
  | _ :: tl, O => v :: tl
  | hd :: tl, S n' => hd :: setNth tl n' v
  end.

Definition assign {A} (a : list A) (i : Z) (v : A) : list A :=
  if i <? 0 then a else setNth a (Z.to_nat i) v.

(** [a.splice(i, 0, v)] *)
Definition spliceInsert {A} (a : list A) (i : Z) (v : A) : list A :=
  let n := Z.to_nat (relIndex (Z.of_nat (List.length a)) i) in
  firstn n a ++ v :: skipn n a.

(** [a.splice(i, 1)] *)
Definition spliceRemove {A} (a : list A) (i : Z) : list A :=
  let n := Z.to_nat (relIndex (Z.of_nat (List.length a)) i) in
  firstn n a ++ skipn (S n) a.

(** [a.join(sep)] *)
Definition join (a : list string) (sep : string) : string :=
  String.concat sep a.

(** [x < y] and [x > y] on exact pixel quantities. *)
Definition ltQ (x y : Q) : bool := negb (Qle_bool y x).
Definition gtQ (x y : Q) : bool := negb (Qle_bool x y).

End JS.

(** ** The host window class *)

Class WindowBase : Type := {
  textWidth : string -> Q;
  contentsWidth : Q;
  padding : Q;
  lineHeight : Q;
  (** [this.x], [this.y], [this.width], [this.height] *)
  windowX : Q;
  windowY : Q;
  windowWidth : Q;
  windowHeight : Q
}.

(** A fixed-width font: every code unit is [cw] pixels wide. *)
Definition fixedWidth (cw : Q) (s : string) : Q :=
  (cw * inject_Z (JS.len s))%Q.

(** ** The editor state *)

Record Window : Type := mkWindow {
  _maxLines : Z;
  _lines : list string;
  _cursorX : Z;
  _cursorY : Z;
  _isComposing : bool;
  _lastInputValue : string;
  (** [_inputElement.value], the accumulator owned by the browser *)
  _inputValue : string
}.

Definition setLines (ls : list string) (w : Window) : Window :=
  mkWindow (_maxLines w) ls (_cursorX w) (_cursorY w)
           (_isComposing w) (_lastInputValue w) (_inputValue w).

Definition setCursorX (x : Z) (w : Window) : Window :=
  mkWindow (_maxLines w) (_lines w) x (_cursorY w)
           (_isComposing w) (_lastInputValue w) (_inputValue w).

Definition setCursorY (y : Z) (w : Window) : Window :=
  mkWindow (_maxLines w) (_lines w) (_cursorX w) y
           (_isComposing w) (_lastInputValue w) (_inputValue w).

Definition setIsComposing (b : bool) (w : Window) : Window :=
  mkWindow (_maxLines w) (_lines w) (_cursorX w) (_cursorY w)
           b (_lastInputValue w) (_inputValue w).

Definition setLastInputValue (s : string) (w : Window) : Window :=
  mkWindow (_maxLines w) (_lines w) (_cursorX w) (_cursorY w)
           (_isComposing w) s (_inputValue w).

Definition setInputValue (s : string) (w : Window) : Window :=
  mkWindow (_maxLines w) (_lines w) (_cursorX w) (_cursorY w)
           (_isComposing w) (_lastInputValue w) s.

(** How a method call ends. *)
Inductive outcome : Type :=
| Ok (w : Window)
| TypeError (w : Window).

Definition windowOf (r : outcome) : Window :=
  match r with Ok w | TypeError w => w end.

Definition isOk (r : outcome) : bool :=
  match r with Ok _ => true | TypeError _ => false end.

(** Sequencing: a raise skips what follows. *)
Definition andThen (r : outcome) (k : Window -> outcome) : outcome :=
  match r with
  | Ok w => k w
  | TypeError w => TypeError w
  end.

Notation "r >>= k" := (andThen r k) (at level 50, left associativity).

(** [for (const x of xs) f(x)] *)
Fixpoint forEach {A} (f : A -> Window -> outcome) (xs : list A)
                 (w : Window) : outcome :=
  match xs with
  | [] => Ok w
  | x :: xs' => f x w >>= forEach f xs'
  end.

(** [for (let i = 0; i < n; i++) f()] *)
Fixpoint repeatN (f : Window -> outcome) (n : nat) (w : Window) : outcome :=
  match n with
  | O => Ok w
  | S n' => f w >>= repeatN f n'
  end.

(** [initialize(x, y, width, height, maxLines)] followed by the state
    tracking set up in [createHtmlInput()]; a new [<input>] has the empty
    value. *)
Definition initialize (maxLines : Z) : Window :=
  {| _maxLines := maxLines;
     _lines := [EmptyString];
     _cursorX := 0;
     _cursorY := 0;
     _isComposing := false;
     _lastInputValue := EmptyString;
     _inputValue := EmptyString |}.

(** The string ["\n"]. *)
Definition newline : string := String "010"%char EmptyString.

(** [inputText()] *)
Definition inputText (w : Window) : string :=
  JS.join (_lines w) newline.

(** ** Window_TextInput (src/Reishandy_TextInput.js) *)

Section Editor.

Context {host : WindowBase}.

Definition numLines (w : Window) : Z := Z.of_nat (List.length (_lines w)).

(** [this._lines[this._cursorY]] *)
Definition currentLine (w : Window) : option string :=
  JS.index (_lines w) (_cursorY w).

(** [this.contentsWidth() - this.padding * 2] *)
Definition maxWidth : Q := (contentsWidth - padding * 2)%Q.

(** *** Cursor movement *)

Definition moveCursorLeft (w : Window) : outcome :=
  if 0 <? _cursorX w then Ok (setCursorX (_cursorX w - 1) w)
  else if 0 <? _cursorY w then
    let w1 := setCursorY (_cursorY w - 1) w in
    match currentLine w1 with
    | Some l => Ok (setCursorX (JS.len l) w1)
    | None => TypeError w1
    end
  else Ok w.

Definition moveCursorRight (w : Window) : outcome :=
  match currentLine w with
  | None => TypeError w
  | Some l =>
    if _cursorX w <? JS.len l then Ok (setCursorX (_cursorX w + 1) w)
    else if _cursorY w <? numLines w - 1 then
      Ok (setCursorX 0 (setCursorY (_cursorY w + 1) w))
    else Ok w
  end.

Definition moveCursorUp (w : Window) : outcome :=
  if 0 <? _cursorY w then
    let w1 := setCursorY (_cursorY w - 1) w in
    match currentLine w1 with
    | Some l => Ok (setCursorX (Z.min (_cursorX w1) (JS.len l)) w1)
    | None => TypeError w1
    end
  else Ok w.

Definition moveCursorDown (w : Window) : outcome :=
  if _cursorY w <? numLines w - 1 then
    let w1 := setCursorY (_cursorY w + 1) w in
    match currentLine w1 with
    | Some l => Ok (setCursorX (Z.min (_cursorX w1) (JS.len l)) w1)
    | None => TypeError w1
    end
  else Ok w.

(** *** Text processing *)

(** The five statements that break [line] at the caret; they occur
    verbatim in [processChar] (lines 555-560) and in [processNewLine]
    (lines 611-617). *)
Definition breakLine (line : string) (w : Window) : Window :=
  let beforeCursor := JS.slice line 0 (_cursorX w) in
  let afterCursor := JS.sliceFrom line (_cursorX w) in
  let w1 := setLines (JS.assign (_lines w) (_cursorY w) beforeCursor) w in
  let w2 := setLines (JS.spliceInsert (_lines w1) (_cursorY w1 + 1)
                                      afterCursor) w1 in
  let w3 := setCursorY (_cursorY w2 + 1) w2 in
  setCursorX 0 w3.

(** [char === "\\" ? "\\\\" : char] *)
Definition processedCharOf (char : string) : string :=
  if (char =? "\")%string then "\\"%string else char.

(** [line.slice(0, cursorX) + processedChar + line.slice(cursorX)] *)
Definition potentialLineOf (line char : string) (w : Window) : string :=
  (JS.slice line 0 (_cursorX w) ++ processedCharOf char
     ++ JS.sliceFrom line (_cursorX w))%string.

(** The two statements that store the new line and advance the caret
    (lines 567-568). *)
Definition insertAtCaret (line char : string) (w : Window) : Window :=
  let w1 := setLines (JS.assign (_lines w) (_cursorY w)
                                (potentialLineOf line char w)) w in
  setCursorX (_cursorX w1 + JS.len (processedCharOf char)) w1.

(** [processChar(char)].  The method calls itself after breaking the
    line; [fuel] bounds the number of nested calls, and the result
    carries the number of nested calls that were made. *)
Fixpoint processCharFrom (fuel : nat) (char : string) (w : Window)
  : option (nat * outcome) :=
  match fuel with
  | O => None
  | S fuel' =>
    match currentLine w with
    | None => Some (O, TypeError w)
    | Some line =>
      let potentialLine := potentialLineOf line char w in
      if JS.gtQ (textWidth potentialLine) maxWidth then
        if numLines w <? _maxLines w then
          match processCharFrom fuel' char (breakLine line w) with
          | Some (d, r) => Some (S d, r)
          | None => None
          end
        else Some (O, Ok w)
      else Some (O, Ok (insertAtCaret line char w))
    end
  end.

(** Every nested call happens with one more line in the buffer and only
    below [_maxLines]. *)
Definition processCharFuel (w : Window) : nat :=
  S (Z.to_nat (_maxLines w - numLines w)).

Definition processChar (char : string) (w : Window) : outcome :=
  match processCharFrom (processCharFuel w) char w with
  | Some (_, r) => r
  | None => Ok w
  end.

(** Number of nested [processChar] calls made by [processChar(char)]. *)
Definition processCharDepth (char : string) (w : Window) : nat :=
  match processCharFrom (processCharFuel w) char w with
  | Some (d, _) => d
  | None => O
  end.

(** [previousLine + line] where [line] may be [undefined]. *)
Definition toStr (o : option string) : string :=
  match o with Some s => s | None => "undefined"%string end.

Definition processBackspace (w : Window) : outcome :=
  let line := currentLine w in
  if 0 <? _cursorX w then
    match line with
    | None => TypeError w
    | Some line =>
      let prevChars := JS.slice line (_cursorX w - 2) (_cursorX w) in
      if (prevChars =? "\\")%string then
        let w1 := setLines (JS.assign (_lines w) (_cursorY w)
                     (JS.slice line 0 (_cursorX w - 2)
                        ++ JS.sliceFrom line (_cursorX w))%string) w in
        Ok (setCursorX (_cursorX w1 - 2) w1)
      else
        let w1 := setLines (JS.assign (_lines w) (_cursorY w)
                     (JS.slice line 0 (_cursorX w - 1)
                        ++ JS.sliceFrom line (_cursorX w))%string) w in
        Ok (setCursorX (_cursorX w1 - 1) w1)
    end
  else if 0 <? _cursorY w then
    match JS.index (_lines w) (_cursorY w - 1) with
    | None => TypeError w
    | Some previousLine =>
      let w1 := setCursorX (JS.len previousLine) w in
      let w2 := setLines (JS.assign (_lines w1) (_cursorY w1 - 1)
                                    (previousLine ++ toStr line)%string) w1 in
      let w3 := setLines (JS.spliceRemove (_lines w2) (_cursorY w2)) w2 in
      Ok (setCursorY (_cursorY w3 - 1) w3)
    end
  else Ok w.

Definition processNewLine (w : Window) : outcome :=
  if _maxLines w <=? numLines w then Ok w
  else
    match currentLine w with
    | None => TypeError w
    | Some line => Ok (breakLine line w)
    end.

(** *** Pointer taps *)

(** The [for] loop of [moveCursorToTouch]: [i] is the loop index, [n]
    the number of iterations left, [bestPos] the variable of that
    name. *)
Fixpoint touchScan (line : string) (x : Q) (i : Z) (n : nat)
                   (bestPos : Z) : Z :=
  match n with
  | O => bestPos
  | S n' =>
    let charStart := textWidth (JS.substringJS line 0 i) in
    let charWidth := textWidth (JS.charAt line i) in
    if JS.ltQ x (charStart + charWidth / 2)%Q then i
    else touchScan line x (i + 1) n' (i + 1)
  end.

Definition moveCursorToTouch (x y : Q) (w : Window) : outcome :=
  let touchedLine := Qfloor (y / lineHeight) in
  if touchedLine <? numLines w then
    let w1 := setCursorY touchedLine w in
    match currentLine w1 with
    | None => TypeError w1
    | Some line =>
      let bestPos := touchScan line x 0 (String.length line) 0 in
      let bestPos := Z.max 0 (bestPos - 1) in
      Ok (setCursorX bestPos w1)
    end
  else Ok w.

(** [isTouchedInside()], on the touch position [TouchInput.x],
    [TouchInput.y]. *)
Definition isTouchedInside (touchX touchY : Q) : bool :=
  Qle_bool windowX touchX
  && JS.ltQ touchX (windowX + windowWidth)
  && Qle_bool windowY touchY
  && JS.ltQ touchY (windowY + windowHeight).

(** [updateTouchInput()]; [triggered] is [TouchInput.isTriggered()].  The
    call of [focusHtmlInput()] that follows only concerns the focus of the
    input element. *)
Definition updateTouchInput (triggered : bool) (touchX touchY : Q)
                            (w : Window) : outcome :=
  if triggered && isTouchedInside touchX touchY then
    let touchX' := (touchX - windowX - padding)%Q in
    let touchY' := (touchY - windowY - padding)%Q in
    moveCursorToTouch touchX' touchY' w
  else Ok w.

(** *** The hidden input element *)

(** [processInputDifference()] *)
Definition processInputDifference (w : Window) : outcome :=
  let currentValue := _inputValue w in
  let previousValue := _lastInputValue w in
  (if JS.len previousValue <? JS.len currentValue then
     let newText := JS.sliceFrom currentValue (JS.len previousValue) in
     forEach processChar (JS.chars newText) w
   else if JS.len currentValue <? JS.len previousValue then
     let deletedCount := JS.len previousValue - JS.len currentValue in
     repeatN processBackspace (Z.to_nat deletedCount) w
   else Ok w)
  >>= fun w' => Ok (setLastInputValue currentValue w').

Inductive Key : Type :=
| ArrowLeft | ArrowRight | ArrowUp | ArrowDown
| Backspace | Enter | OtherKey.

(** The [keydown] listener. *)
Definition _boundHandleKeyDown (key : Key) (w : Window) : outcome :=
  let clear := fun w' =>
    Ok (setInputValue ""%string (setLastInputValue ""%string w')) in
  match key with
  | ArrowLeft => moveCursorLeft w >>= clear
  | ArrowRight => moveCursorRight w >>= clear
  | ArrowUp => moveCursorUp w >>= clear
  | ArrowDown => moveCursorDown w >>= clear
  | Backspace =>
    processBackspace w >>= fun w' =>
    Ok (setLastInputValue (_inputValue w') w')
  | Enter => processNewLine w >>= clear
  | OtherKey => Ok w
  end.

(** The [compositionstart] and [compositionend] listeners. *)
Definition compositionstart (w : Window) : outcome :=
  Ok (setIsComposing true w).

Definition compositionend (w : Window) : outcome :=
  processInputDifference (setIsComposing false w).

(** The [input] listener. *)
Definition _boundOnInputChange (w : Window) : outcome :=
  if negb (_isComposing w) then processInputDifference w else Ok w.

(** The browser stores the new accumulated string in the element and
    then fires [input]. *)
Definition inputEvent (value : string) (w : Window) : outcome :=
  _boundOnInputChange (setInputValue value w).

End Editor.

(** ** The older variants *)

(** src/Reishandy_TextInput_old.js: no backslash escaping. *)
Module Reishandy_TextInput_old.

(** [processBackspace()], lines 754-772 *)
Definition processBackspace (w : Window) : outcome :=
  let line := currentLine w in
  if 0 <? _cursorX w then
    match line with
    | None => TypeError w
    | Some line =>
      let w1 := setLines (JS.assign (_lines w) (_cursorY w)
                   (JS.slice line 0 (_cursorX w - 1)
                      ++ JS.sliceFrom line (_cursorX w))%string) w in
      Ok (setCursorX (_cursorX w1 - 1) w1)
    end
  else if 0 <? _cursorY w then
    match JS.index (_lines w) (_cursorY w - 1) with
    | None => TypeError w
    | Some previousLine =>
      let w1 := setCursorX (JS.len previousLine) w in
      let w2 := setLines (JS.assign (_lines w1) (_cursorY w1 - 1)
                                    (previousLine ++ toStr line)%string) w1 in
      let w3 := setLines (JS.spliceRemove (_lines w2) (_cursorY w2)) w2 in
      Ok (setCursorY (_cursorY w3 - 1) w3)
    end
  else Ok w.

End Reishandy_TextInput_old.

(** src/TextInput.js: the tap goes to the nearest character boundary. *)
Module TextInput.

Section Variant.

Context {host : WindowBase}.

(** The [for] loop of [moveCursorToTouch], lines 285-292; [bestDiff] is
    [None] while it still holds [Number.MAX_VALUE]. *)
Fixpoint nearestScan (line : string) (x : Q) (i : Z) (n : nat)
                     (bestDiff : option Q) (bestPos : Z) : Z :=
  match n with
  | O => bestPos
  | S n' =>
    let textWidth := textWidth (JS.substringJS line 0 i) in
    let diff := Qabs (textWidth - x) in
    let better :=
      match bestDiff with
      | None => true
      | Some d => JS.ltQ diff d
      end in
    if better then nearestScan line x (i + 1) n' (Some diff) i
    else nearestScan line x (i + 1) n' bestDiff bestPos
  end.

Definition moveCursorToTouch (x y : Q) (w : Window) : outcome :=
  let touchedLine := Qfloor (y / lineHeight) in
  if touchedLine <? numLines w then
    let w1 := setCursorY touchedLine w in
    match currentLine w1 with
    | None => TypeError w1
    | Some line =>
      let bestPos :=
        nearestScan line x 0 (S (String.length line)) None 0 in
      Ok (setCursorX bestPos w1)
    end
  else Ok w.

End Variant.

End TextInput.

(** ** Vocabulary of the properties *)

(** The invariant of the data model: between one and [_maxLines] lines,
    and a caret that designates a position of the buffer. *)
Definition valid (w : Window) : Prop :=
  1 <= numLines w <= _maxLines w
  /\ 0 <= _cursorY w < numLines w
  /\ exists line, currentLine w = Some line
                  /\ 0 <= _cursorX w <= JS.len line.

(** The caret is valid, whatever the number of lines. *)
Definition caretValid (w : Window) : Prop :=
  exists line, currentLine w = Some line /\ 0 <= _cursorX w <= JS.len line.

(** The operations of the editing core, as a user triggers them. *)
Inductive Op : Type :=
| InsertChar (char : string)
| DeleteLeft
| NewLine
| MoveLeft | MoveRight | MoveUp | MoveDown
| Tap (x y : Q).

Definition applyOp {host : WindowBase} (o : Op) (w : Window) : outcome :=
  match o with
  | InsertChar char => processChar char w
  | DeleteLeft => processBackspace w
  | NewLine => processNewLine w
  | MoveLeft => moveCursorLeft w
  | MoveRight => moveCursorRight w
  | MoveUp => moveCursorUp w
  | MoveDown => moveCursorDown w
  | Tap x y => moveCursorToTouch x y w
  end.

(** A tap that lands on or below the first text row. *)
Definition belowPadding (o : Op) : Prop :=
  match o with
  | Tap _ y => (0 <= y)%Q
  | _ => True
  end.







Definition backslash : ascii := "\"%char.

(** The text with every backslash doubled, as [processChar] stores it. *)
Fixpoint escapeText (s : string) : string :=
  match s with
  | EmptyString => EmptyString
  | String a s' =>
    if Ascii.eqb a backslash
    then String a (String a (escapeText s'))
    else String a (escapeText s')
  end.

Fixpoint noBackslash (s : string) : Prop :=
  match s with
  | EmptyString => True
  | String a s' => a <> backslash /\ noBackslash s'
  end.

(** The test of the tap scan: [x] lies left of the middle of the
    character at index [i]. *)
Definition leftOfMiddle {host : WindowBase} (line : string) (x : Q) (i : Z)
  : Prop :=
  (x < textWidth (JS.substringJS line 0 i)
       + textWidth (JS.charAt line i) / 2)%Q.

(** A host with a fixed-width font, its window at the origin of the
    screen and three lines high. *)
Definition fixedHost (cw contents pad lh : Q) : WindowBase :=
  {| textWidth := fixedWidth cw;
     contentsWidth := contents;
     padding := pad;
     lineHeight := lh;
     windowX := 0;
     windowY := 0;
     windowWidth := (contents + pad * 2)%Q;
     windowHeight := (lh * 3 + pad * 2)%Q |}.

(** Ten pixels per character, room for five characters on a line, a
    padding of 12 pixels and lines of 36 pixels. *)
Definition mockHost : WindowBase := fixedHost 10 74 12 36.

(** The same font in a window so narrow that one character fits on a
    line and two do not. *)
Definition narrowHost : WindowBase := fixedHost 10 39 12 36.

(** ** States used as examples, all under [mockHost] *)

Definition exWindow (maxLines : Z) (lines : list string) (x y : Z)
  : Window :=
  mkWindow maxLines lines x y false EmptyString EmptyString.

(** One line at capacity, caret at its end, no room for another line. *)
Definition exFull : Window := exWindow 1 ["abcde"%string] 5 0.

(** One line at capacity with room for two more lines; the caret at the
    end, at the start and inside the line. *)
Definition exCapacityEnd : Window := exWindow 3 ["abcde"%string] 5 0.
Definition exCapacityStart : Window := exWindow 3 ["abcde"%string] 0 0.
Definition exCapacityInside : Window := exWindow 3 ["abcde"%string] 2 0.

(** The line of the pointer-mapping example. *)
Definition exAb : Window := exWindow 3 ["ab"%string] 0 0.

(** The editor after ["ab"] was typed through the input element. *)
Definition exTyped : Window :=
  mkWindow 3 ["ab"%string] 2 0 false "ab"%string "ab"%string.

(** An escaped backslash with the caret behind it. *)
Definition exEscaped : Window := exWindow 3 ["\\"%string] 2 0.

(** Two lines, the caret inside the second and at its start. *)
Definition exSecondLine : Window :=
  exWindow 3 ["ab"%string; "cd"%string] 1 1.
Definition exSecondLineStart : Window :=
  exWindow 3 ["ab"%string; "cd"%string] 0 1.

(** An empty second line. *)
Definition exEmptyLine : Window :=
  exWindow 3 ["ab"%string; ""%string] 0 1.

(** ** Rendering, blinking and the scene (src/Reishandy_TextInput.js) *)

(** The two fields of the window that drive the blinking cursor. *)
Record Blink : Type := mkBlink {
  _cursorVisible : bool;
  _blinkTimer : Z
}.

(** The values given to the two fields by [initialize]. *)
Definition initialBlink : Blink := mkBlink true 0.

(** [updateCursorBlink()]; the boolean tells whether [refresh()] was
    called. *)
Definition updateCursorBlink (b : Blink) : Blink * bool :=
  let b1 := mkBlink (_cursorVisible b) (_blinkTimer b + 1) in
  if 30 <=? _blinkTimer b1
  then (mkBlink (negb (_cursorVisible b1)) 0, true)
  else (b1, false).

(** [n] calls of [update()], as far as the two fields go. *)
Definition blinkAfter (n : nat) (b : Blink) : Blink :=
  Nat.iter n (fun b' => fst (updateCursorBlink b')) b.

(** What [drawCursor()] does: nothing, one [fillRect(x, y, width, height)],
    or a raise at [line.substring]. *)
Inductive cursorDrawing : Type :=
| NotDrawn
| FillRect (x y width height : Q)
| DrawRaise.

Section Rendering.

Context {host : WindowBase}.

(** [Math.floor((this.height - this.padding * 2) / this.lineHeight())] *)
Definition maxVisibleLines : Z :=
  Qfloor ((windowHeight - padding * 2) / lineHeight).

(** The value that [drawTextLines()] stores in [_visibleStartLine]. *)
Definition visibleStartLine (w : Window) : Z :=
  let startLine := _cursorY w - maxVisibleLines / 2 in
  let startLine := Z.max 0 startLine in
  if numLines w <? startLine + maxVisibleLines
  then Z.max 0 (numLines w - maxVisibleLines)
  else startLine.

(** The [for] loop of [drawTextLines()]: the calls
    [drawTextEx(text, x, y)] in order; [i] is the loop index and [n] the
    number of iterations left.  [startLine] is never negative, so an index
    below the number of lines designates a line. *)
Fixpoint drawLoop (lines : list string) (startLine i : Z) (n : nat)
  : list (string * Q * Q) :=
  match n with
  | O => []
  | S n' =>
    let lineIndex := startLine + i in
    let rest := drawLoop lines startLine (i + 1) n' in
    if lineIndex <? Z.of_nat (List.length lines) then
      match JS.index lines lineIndex with
      | Some text =>
        (text, padding, (padding + inject_Z i * lineHeight)%Q) :: rest
      | None => rest
      end
    else rest
  end.

(** [drawTextLines()] *)
Definition drawTextLines (w : Window) : Z * list (string * Q * Q) :=
  let startLine := visibleStartLine w in
  (startLine, drawLoop (_lines w) startLine 0 (Z.to_nat maxVisibleLines)).

(** [drawCursor()], given the two fields it reads. *)
Definition drawCursor (cursorVisible : bool) (visibleStart : Z) (w : Window)
  : cursorDrawing :=
  if negb cursorVisible then NotDrawn
  else
    let visibleLine := _cursorY w - visibleStart in
    if (visibleLine <? 0) || (maxVisibleLines <=? visibleLine) then NotDrawn
    else
      match currentLine w with
      | None => DrawRaise
      | Some line =>
        let cursorX :=
          (padding + textWidth (JS.substringJS line 0 (_cursorX w)))%Q in
        let cursorY := (padding + inject_Z visibleLine * lineHeight)%Q in
        FillRect cursorX (cursorY + lineHeight - 2)%Q 10 2
      end.

(** [refresh()]: the new [_visibleStartLine], the text drawn and the
    cursor drawn. *)
Definition refresh (cursorVisible : bool) (w : Window)
  : Z * list (string * Q * Q) * cursorDrawing :=
  let (startLine, rows) := drawTextLines w in
  (startLine, rows, drawCursor cursorVisible startLine w).

(** The events that reach the window, and their handlers. *)
Inductive Event : Type :=
| KeyDown (key : Key)
| Input (value : string)
| CompositionStart
| CompositionEnd
| Touch (triggered : bool) (touchX touchY : Q).

Definition handleEvent (e : Event) (w : Window) : outcome :=
  match e with
  | KeyDown key => _boundHandleKeyDown key w
  | Input value => inputEvent value w
  | CompositionStart => compositionstart w
  | CompositionEnd => compositionend w
  | Touch triggered touchX touchY => updateTouchInput triggered touchX touchY w
  end.

(** A touch that [updateTouchInput] ignores, or that lies on or below the
    first text row. *)
Definition touchBelowPadding (e : Event) : Prop :=
  match e with
  | Touch triggered touchX touchY =>
    triggered && isTouchedInside touchX touchY = true ->
    (windowY + padding <= touchY)%Q
  | _ => True
  end.

End Rendering.

(** What [$gameVariables.setValue] receives: a string or a number. *)
Inductive GameValue : Type :=
| TextValue (text : string)
| NumberValue (n : Z).

(** [Scene_TextInput.onInputOk()]: the value stored in the game variable,
    [this._inputWindow.inputText() || 0]. *)
Definition onInputOk (w : Window) : GameValue :=
  let text := inputText w in
  if (text =? "")%string then NumberValue 0 else TextValue text.

(** All the text of the buffer, line after line. *)
Definition flatText (w : Window) : string :=
  String.concat "" (_lines w).

(** Every line of the buffer fits the available width. *)
Definition fitsWidth {host : WindowBase} (w : Window) : Prop :=
  Forall (fun l => (textWidth l <= maxWidth)%Q) (_lines w).

(** ** The name input (src/Reishandy_TextInput_old.js) *)

Module Window_NameInput.

Section NameInput.

Context {host : WindowBase}.

(** [Window_TextInput.processChar(char)] of the old file (lines 723-749):
    the character is inserted as it is, without escaping.  [fuel] bounds
    the nested calls as in [processCharFrom]. *)
Fixpoint superProcessCharFrom (fuel : nat) (char : string) (w : Window)
  : option outcome :=
  match fuel with
  | O => None
  | S fuel' =>
    match currentLine w with
    | None => Some (TypeError w)
    | Some line =>
      let potentialLine :=
        (JS.slice line 0 (_cursorX w) ++ char
           ++ JS.sliceFrom line (_cursorX w))%string in
      if JS.gtQ (textWidth potentialLine) maxWidth then
        if numLines w <? _maxLines w then
          superProcessCharFrom fuel' char (breakLine line w)
        else Some (Ok w)
      else
        let w1 := setLines (JS.assign (_lines w) (_cursorY w)
                                      potentialLine) w in
        Some (Ok (setCursorX (_cursorX w1 + JS.len char) w1))
    end
  end.

Definition superProcessChar (char : string) (w : Window) : outcome :=
  match superProcessCharFrom (processCharFuel w) char w with
  | Some r => r
  | None => Ok w
  end.

(** [initialize(x, y, width, height, actor, maxChars)]: the text window
    with [maxLines = 1], then the actor's current name as line 0 and the
    caret at its end. *)
Definition initialize (name : string) : Window :=
  let w := initialize 1 in
  let w1 := setLines (JS.assign (_lines w) 0 name) w in
  setCursorX (JS.len name) w1.

(** [processChar(char)] of the name input (lines 1076-1083);
    [this._lines[0] || ""] is the empty string for a missing or empty
    line 0. *)
Definition processChar (maxChars : Z) (char : string) (w : Window)
  : outcome :=
  let currentText :=
    match JS.index (_lines w) 0 with
    | Some text => text
    | None => EmptyString
    end in
  if maxChars <=? JS.len currentText then Ok w
  else superProcessChar char w.

End NameInput.

End Window_NameInput.

(** A character of one code unit that is not a backslash, as
    [for ... of] delivers every character of the Basic Multilingual Plane
    but the backslash. *)
Definition plainUnit (char : string) : Prop :=
  exists a, char = String a EmptyString /\ a <> backslash.

(** The shape of a buffer filled by typing at the end of the text, lines
    holding [k] characters: full lines, then the line being typed, with
    the caret at its end. *)
Definition typedShape (k : Z) (w : Window) (fulls : list string)
           (cur : string) : Prop :=
  _lines w = (fulls ++ [cur])%list
  /\ Forall (fun l => JS.len l = k) fulls
  /\ JS.len cur <= k
  /\ _cursorY w = Z.of_nat (List.length fulls)
  /\ _cursorX w = JS.len cur
  /\ numLines w <= _maxLines w.

(** * Facts about the primitives *)

Module JSFacts.

Import JS.

Lemma append_empty_r (s : string) : (s ++ "")%string = s.
Proof. induction s as [|a s IH]; simpl; [reflexivity | now rewrite IH]. Qed.

Lemma append_assoc (a b c : string) :
  ((a ++ b) ++ c)%string = (a ++ (b ++ c))%string.
Proof. induction a as [|x a IH]; simpl; [reflexivity | now rewrite IH]. Qed.

Lemma length_append (a b : string) :
  String.length (a ++ b) = (String.length a + String.length b)%nat.
Proof. induction a as [|x a IH]; simpl; [reflexivity | now rewrite IH]. Qed.

Lemma len_append (a b : string) : len (a ++ b) = len a + len b.
Proof. unfold len. rewrite length_append. lia. Qed.

Lemma len_nonneg (s : string) : 0 <= len s.
Proof. unfold len. lia. Qed.

Lemma append_inv_l (a b c : string) :
  (a ++ b)%string = (a ++ c)%string -> b = c.
Proof.
  induction a as [|x a IH]; simpl; intros E; [exact E|].
  injection E as E. now apply IH.
Qed.

Lemma substring_zero (n : nat) (s : string) : substring n 0 s = ""%string.
Proof.
  revert s; induction n as [|n IH]; intros [|a s]; simpl; auto.
Qed.

Lemma substring_prefix (a b : string) :
  substring 0 (String.length a) (a ++ b) = a.
Proof.
  induction a as [|x a IH]; simpl.
  - destruct b; reflexivity.
  - now rewrite IH.
Qed.

Lemma substring_whole (s : string) : substring 0 (String.length s) s = s.
Proof.
  rewrite <- (append_empty_r s) at 2. apply substring_prefix.
Qed.

Lemma substring_skip (a b : string) (m : nat) :
  substring (String.length a) m (a ++ b) = substring 0 m b.
Proof. induction a as [|x a IH]; simpl; [reflexivity | exact IH]. Qed.

Lemma substring_suffix (a b : string) :
  substring (String.length a) (String.length b) (a ++ b) = b.
Proof. rewrite substring_skip. apply substring_whole. Qed.

(** Every string splits at every position within it. *)
Lemma split_at (s : string) (n : nat) :
  (n <= String.length s)%nat ->
  exists a b, s = (a ++ b)%string /\ String.length a = n.
Proof.
  revert s; induction n as [|n IH]; intros s Hn.
  - exists ""%string, s. split; reflexivity.
  - destruct s as [|x s]; simpl in Hn; [lia|].
    destruct (IH s) as (a & b & -> & Ha); [lia|].
    exists (String x a), b. split; simpl; congruence.
Qed.

(** [slice] on a string given as prefix, middle and suffix. *)
Lemma slice_middle (a b c : string) :
  slice (a ++ b ++ c) (len a) (len a + len b) = b.
Proof.
  unfold slice, relIndex.
  rewrite !len_append.
  pose proof (len_nonneg a); pose proof (len_nonneg b);
    pose proof (len_nonneg c).
  destruct (Z.ltb_spec (len a) 0); [lia|].
  destruct (Z.ltb_spec (len a + len b) 0); [lia|].
  replace (Z.min (len a) (len a + (len b + len c))) with (len a) by lia.
  replace (Z.max (Z.min (len a + len b) (len a + (len b + len c)) - len a) 0)
    with (len b) by lia.
  unfold len. rewrite !Nat2Z.id.
  rewrite substring_skip. apply substring_prefix.
Qed.

Lemma slice_prefix (a b : string) : slice (a ++ b) 0 (len a) = a.
Proof.
  pose proof (slice_middle "" a b) as E. simpl in E. exact E.
Qed.

Lemma sliceFrom_suffix (a b : string) : sliceFrom (a ++ b) (len a) = b.
Proof.
  unfold sliceFrom.
  pose proof (slice_middle a b "") as E.
  rewrite append_empty_r in E. rewrite len_append. exact E.
Qed.

(** Breaking a line at a caret within it loses nothing. *)
Lemma slice_sliceFrom (s : string) (i : Z) :
  0 <= i <= len s ->
  (slice s 0 i ++ sliceFrom s i)%string = s
  /\ len (slice s 0 i) = i
  /\ len (sliceFrom s i) = len s - i.
Proof.
  intros Hi.
  destruct (split_at s (Z.to_nat i)) as (a & b & -> & Ha);
    [unfold len in Hi; lia|].
  assert (Ei : i = len a) by (unfold len; lia).
  rewrite Ei, slice_prefix, sliceFrom_suffix, len_append.
  repeat split; lia.
Qed.

Lemma length_substring_le (n m : nat) (s : string) :
  (String.length (substring n m s) <= m)%nat.
Proof.
  revert n m; induction s as [|a s IH]; intros [|n] [|m]; simpl;
    try lia.
  - specialize (IH 0%nat m). lia.
  - apply (IH n 0%nat).
  - apply (IH n (S m)).
Qed.

(** A slice of two code units ending at [i] starts at [i - 2]: the
    negative start that [i < 2] would give wraps to the end of the
    string and leaves fewer than two units. *)
Lemma slice_two_units (s : string) (i : Z) :
  0 <= i <= len s ->
  String.length (slice s (i - 2) i) = 2%nat ->
  2 <= i.
Proof.
  intros Hi E. destruct (Z.le_gt_cases 2 i) as [|Hlt]; [assumption|].
  exfalso. unfold slice, relIndex in E.
  pose proof (length_substring_le
    (Z.to_nat (if i - 2 <? 0 then Z.max (len s + (i - 2)) 0
               else Z.min (i - 2) (len s)))
    (Z.to_nat (Z.max ((if i <? 0 then Z.max (len s + i) 0
                       else Z.min i (len s))
                      - (if i - 2 <? 0 then Z.max (len s + (i - 2)) 0
                         else Z.min (i - 2) (len s))) 0)) s) as L.
  cbv zeta in E. rewrite E in L.
  destruct (Z.ltb_spec (i - 2) 0); [|lia].
  destruct (Z.ltb_spec i 0); lia.
Qed.

Lemma slice_0_0 (s : string) : slice s 0 0 = ""%string.
Proof. exact (slice_prefix "" s). Qed.

Lemma sliceFrom_0 (s : string) : sliceFrom s 0 = s.
Proof. exact (sliceFrom_suffix "" s). Qed.

Lemma slice_whole (s : string) : slice s 0 (len s) = s.
Proof.
  pose proof (slice_prefix s "") as E. rewrite append_empty_r in E. exact E.
Qed.

Lemma sliceFrom_end (s : string) : sliceFrom s (len s) = ""%string.
Proof.
  pose proof (sliceFrom_suffix s "") as E. rewrite append_empty_r in E.
  exact E.
Qed.

Lemma chars_append (a b : string) :
  chars (a ++ b) = (chars a ++ chars b)%list.
Proof. induction a as [|x a IH]; simpl; [reflexivity | now rewrite IH]. Qed.

(** Arrays *)

Lemma index_Some {A} (a : list A) (i : Z) (v : A) :
  index a i = Some v -> 0 <= i < Z.of_nat (List.length a).
Proof.
  unfold index. destruct (Z.ltb_spec i 0); [discriminate|].
  intros E. assert (nth_error a (Z.to_nat i) <> None) as N by congruence.
  apply nth_error_Some in N. lia.
Qed.

Lemma index_in_range {A} (a : list A) (i : Z) :
  0 <= i < Z.of_nat (List.length a) -> exists v, index a i = Some v.
Proof.
  intros Hi. unfold index. destruct (Z.ltb_spec i 0); [lia|].
  destruct (nth_error a (Z.to_nat i)) eqn:E; [eauto|].
  apply nth_error_None in E. lia.
Qed.

Lemma length_setNth {A} (a : list A) (n : nat) (v : A) :
  List.length (setNth a n v) = List.length a.
Proof.
  revert n; induction a as [|x a IH]; intros [|n]; simpl; auto.
Qed.

Lemma length_assign {A} (a : list A) (i : Z) (v : A) :
  List.length (assign a i v) = List.length a.
Proof.
  unfold assign. destruct (i <? 0); [reflexivity | apply length_setNth].
Qed.

Lemma nth_error_setNth {A} (a : list A) (n m : nat) (v : A) :
  nth_error (setNth a n v) m =
  if Nat.eqb n m then
    match nth_error a m with Some _ => Some v | None => None end
  else nth_error a m.
Proof.
  revert n m; induction a as [|x a IH]; intros [|n] [|m]; simpl; auto.
  - destruct (Nat.eqb n m); reflexivity.
Qed.

(** An in-range assignment, seen as a cut of the list. *)
Lemma setNth_cut {A} (a : list A) (n : nat) (v : A) :
  (n < List.length a)%nat ->
  setNth a n v = (firstn n a ++ v :: skipn (S n) a)%list.
Proof.
  revert n; induction a as [|x a IH]; intros [|n] Hn; simpl in *;
    try lia; auto.
  rewrite IH by lia. reflexivity.
Qed.

Lemma index_app_l {A} (a b : list A) (i : Z) :
  0 <= i < Z.of_nat (List.length a) -> index (a ++ b) i = index a i.
Proof.
  intros Hi. unfold index. destruct (Z.ltb_spec i 0); [lia|].
  apply nth_error_app1. lia.
Qed.

Lemma index_app_r {A} (a b : list A) (i : Z) :
  Z.of_nat (List.length a) <= i ->
  index (a ++ b) i = index b (i - Z.of_nat (List.length a)).
Proof.
  intros Hi. unfold index.
  destruct (Z.ltb_spec i 0); [lia|].
  destruct (Z.ltb_spec (i - Z.of_nat (List.length a)) 0); [lia|].
  rewrite nth_error_app2 by lia. f_equal. lia.
Qed.

(** Arrays cut around one element: the shape in which the editor's
    assignments and splices are easiest to read. *)

Lemma index_cut {A} (a : list A) (i : Z) (v : A) :
  index a i = Some v ->
  exists pre post,
    a = (pre ++ v :: post)%list /\ Z.of_nat (List.length pre) = i.
Proof.
  intros E. pose proof (index_Some _ _ _ E) as Hi.
  unfold index in E. destruct (Z.ltb_spec i 0); [lia|].
  apply nth_error_split in E. destruct E as (pre & post & -> & Hl).
  exists pre, post. split; [reflexivity | lia].
Qed.

Lemma index_at_cut {A} (pre post : list A) (v : A) :
  index (pre ++ v :: post) (Z.of_nat (List.length pre)) = Some v.
Proof.
  unfold index. destruct (Z.ltb_spec (Z.of_nat (List.length pre)) 0); [lia|].
  rewrite Nat2Z.id, nth_error_app2, Nat.sub_diag by lia. reflexivity.
Qed.

Lemma assign_at_cut {A} (pre post : list A) (v v' : A) :
  assign (pre ++ v :: post) (Z.of_nat (List.length pre)) v'
  = (pre ++ v' :: post)%list.
Proof.
  unfold assign. destruct (Z.ltb_spec (Z.of_nat (List.length pre)) 0); [lia|].
  rewrite Nat2Z.id. clear.
  induction pre as [|x pre IH]; simpl; [reflexivity | now rewrite IH].
Qed.

Lemma spliceInsert_after_cut {A} (pre post : list A) (v u : A) :
  spliceInsert (pre ++ v :: post) (Z.of_nat (List.length pre) + 1) u
  = (pre ++ v :: u :: post)%list.
Proof.
  unfold spliceInsert, relIndex. rewrite length_app. simpl List.length.
  destruct (Z.ltb_spec (Z.of_nat (List.length pre) + 1) 0); [lia|].
  replace (Z.to_nat _) with (List.length (pre ++ [v]))
    by (rewrite length_app; simpl; lia).
  replace (pre ++ v :: post)%list with ((pre ++ [v]) ++ post)%list
    by (rewrite <- app_assoc; reflexivity).
  rewrite firstn_app, skipn_app, Nat.sub_diag, firstn_all, skipn_all.
  simpl. rewrite app_nil_r, <- app_assoc. reflexivity.
Qed.

Lemma skipn_past_cut {A} (pre post : list A) (v : A) :
  skipn (S (List.length pre)) (pre ++ v :: post) = post.
Proof. induction pre as [|x pre IH]; simpl; auto. Qed.

Lemma firstn_at_cut {A} (pre post : list A) :
  firstn (List.length pre) (pre ++ post) = pre.
Proof. induction pre as [|x pre IH]; simpl; [now destruct post | now rewrite IH]. Qed.

Lemma spliceRemove_at_cut {A} (pre post : list A) (v : A) :
  spliceRemove (pre ++ v :: post) (Z.of_nat (List.length pre))
  = (pre ++ post)%list.
Proof.
  unfold spliceRemove, relIndex. rewrite length_app. simpl List.length.
  destruct (Z.ltb_spec (Z.of_nat (List.length pre)) 0); [lia|].
  replace (Z.to_nat _) with (List.length pre) by lia.
  rewrite firstn_at_cut, skipn_past_cut. reflexivity.
Qed.

Lemma cut_shift {A} (pre post : list A) (u : A) :
  (pre ++ u :: post)%list = ((pre ++ [u]) ++ post)%list
  /\ Z.of_nat (List.length (pre ++ [u])) = Z.of_nat (List.length pre) + 1.
Proof.
  rewrite <- app_assoc, length_app. simpl. split; [reflexivity | lia].
Qed.

Lemma index_after_cut {A} (pre post : list A) (u v : A) :
  index (pre ++ u :: v :: post) (Z.of_nat (List.length pre) + 1) = Some v.
Proof.
  destruct (cut_shift pre (v :: post) u) as (-> & <-). apply index_at_cut.
Qed.

Lemma spliceRemove_after_cut {A} (pre post : list A) (u v : A) :
  spliceRemove (pre ++ u :: v :: post) (Z.of_nat (List.length pre) + 1)
  = (pre ++ u :: post)%list.
Proof.
  destruct (cut_shift pre (v :: post) u) as (-> & <-).
  rewrite spliceRemove_at_cut, <- app_assoc. reflexivity.
Qed.

(** Exact pixel comparisons *)

Lemma gtQ_true (x y : Q) : gtQ x y = true <-> (y < x)%Q.
Proof.
  unfold gtQ. rewrite negb_true_iff.
  destruct (Qle_bool x y) eqn:E.
  - apply Qle_bool_iff in E. split; [discriminate|].
    intros L. exfalso. exact (Qlt_not_le _ _ L E).
  - split; [intros _ | reflexivity].
    apply Qnot_le_lt. intros L. apply Qle_bool_iff in L. congruence.
Qed.

Lemma gtQ_false (x y : Q) : gtQ x y = false <-> (x <= y)%Q.
Proof.
  unfold gtQ. rewrite negb_false_iff. apply Qle_bool_iff.
Qed.

Lemma ltQ_true (x y : Q) : ltQ x y = true <-> (x < y)%Q.
Proof. apply gtQ_true. Qed.

Lemma ltQ_false (x y : Q) : ltQ x y = false <-> (y <= x)%Q.
Proof. apply gtQ_false. Qed.

End JSFacts.

(** * Facts about the editor *)

Section EditorFacts.

Context {host : WindowBase}.

Import JS JSFacts.

Lemma valid_caretValid (w : Window) : valid w -> caretValid w.
Proof. intros (_ & _ & H). exact H. Qed.

Lemma caretValid_valid (w : Window) :
  caretValid w -> numLines w <= _maxLines w -> valid w.
Proof.
  intros (line & E & Hx) Hm.
  pose proof (index_Some _ _ _ E) as Hy. fold (numLines w) in Hy.
  repeat split; try lia. exists line. split; [exact E | lia].
Qed.

Lemma initialize_valid (maxLines : Z) :
  1 <= maxLines -> valid (initialize maxLines).
Proof.
  intros H. unfold valid, numLines, currentLine; simpl.
  repeat split; try lia.
  exists ""%string. split; [reflexivity | unfold len; simpl; lia].
Qed.

(** The buffer cut around the caret's line. *)
Lemma currentLine_cut (w : Window) (line : string) :
  currentLine w = Some line ->
  exists pre post,
    _lines w = (pre ++ line :: post)%list
    /\ Z.of_nat (List.length pre) = _cursorY w.
Proof. apply index_cut. Qed.

Lemma length_spliceInsert {A} (a : list A) (i : Z) (v : A) :
  List.length (spliceInsert a i v) = S (List.length a).
Proof.
  unfold spliceInsert. set (n := Z.to_nat _).
  rewrite length_app. simpl. rewrite <- Nat.add_succ_comm.
  rewrite <- (firstn_skipn n a) at 3. rewrite length_app. lia.
Qed.

(** *** Breaking a line *)

Lemma numLines_breakLine (line : string) (w : Window) :
  numLines (breakLine line w) = numLines w + 1.
Proof.
  unfold breakLine, numLines; simpl.
  rewrite length_spliceInsert, length_assign. lia.
Qed.

Lemma maxLines_breakLine (line : string) (w : Window) :
  _maxLines (breakLine line w) = _maxLines w.
Proof. reflexivity. Qed.

Lemma breakLine_cut (w : Window) (line : string) (pre post : list string) :
  _lines w = (pre ++ line :: post)%list ->
  Z.of_nat (List.length pre) = _cursorY w ->
  _lines (breakLine line w)
  = (pre ++ slice line 0 (_cursorX w)
         :: sliceFrom line (_cursorX w) :: post)%list
  /\ _cursorY (breakLine line w) = _cursorY w + 1
  /\ _cursorX (breakLine line w) = 0
  /\ currentLine (breakLine line w) = Some (sliceFrom line (_cursorX w)).
Proof.
  intros El Ey.
  assert (L : _lines (breakLine line w)
              = (pre ++ slice line 0 (_cursorX w)
                     :: sliceFrom line (_cursorX w) :: post)%list).
  { unfold breakLine; simpl. rewrite El, <- Ey.
    rewrite assign_at_cut, spliceInsert_after_cut. reflexivity. }
  repeat split; try assumption; try reflexivity.
  unfold currentLine. rewrite L.
  change (_cursorY (breakLine line w)) with (_cursorY w + 1).
  rewrite <- Ey.
  replace (pre ++ slice line 0 (_cursorX w)
               :: sliceFrom line (_cursorX w) :: post)%list
    with ((pre ++ [slice line 0 (_cursorX w)])
            ++ sliceFrom line (_cursorX w) :: post)%list
    by (rewrite <- app_assoc; reflexivity).
  replace (Z.of_nat (List.length pre) + 1)
    with (Z.of_nat (List.length (pre ++ [slice line 0 (_cursorX w)])))
    by (rewrite length_app; simpl; lia).
  apply index_at_cut.
Qed.

Lemma breakLine_caretValid (w : Window) (line : string) :
  currentLine w = Some line -> caretValid (breakLine line w).
Proof.
  intros E. destruct (currentLine_cut _ _ E) as (pre & post & El & Ey).
  destruct (breakLine_cut _ _ _ _ El Ey) as (_ & _ & Ex & Ec).
  exists (sliceFrom line (_cursorX w)). split; [exact Ec|].
  rewrite Ex. pose proof (len_nonneg (sliceFrom line (_cursorX w))). lia.
Qed.

(** *** Unfolding [processChar] *)

Lemma processCharFuel_breakLine (line : string) (w : Window) :
  numLines w < _maxLines w ->
  processCharFuel w = S (processCharFuel (breakLine line w)).
Proof.
  intros H. unfold processCharFuel.
  rewrite numLines_breakLine, maxLines_breakLine. lia.
Qed.

(** [processChar] returns: the fuel it is given is enough. *)
Lemma processCharFrom_total (char : string) (fuel : nat) (w : Window) :
  (processCharFuel w <= fuel)%nat ->
  exists d r, processCharFrom fuel char w = Some (d, r).
Proof.
  revert w; induction fuel as [|fuel IH]; intros w Hf.
  - unfold processCharFuel in Hf. lia.
  - simpl. destruct (currentLine w) as [line|]; [|eauto].
    destruct (gtQ _ _); [|eauto].
    destruct (Z.ltb_spec (numLines w) (_maxLines w)) as [Hlt|Hge];
      [|eauto].
    rewrite (processCharFuel_breakLine line w Hlt) in Hf.
    destruct (IH (breakLine line w)) as (d & r & E); [lia|].
    rewrite E. eauto.
Qed.

(** More fuel changes nothing. *)
Lemma processCharFrom_more (char : string) (fuel fuel' : nat) (w : Window)
      (res : nat * outcome) :
  processCharFrom fuel char w = Some res ->
  (fuel <= fuel')%nat ->
  processCharFrom fuel' char w = Some res.
Proof.
  revert fuel' w res; induction fuel as [|fuel IH];
    intros fuel' w res E Hf; [discriminate|].
  destruct fuel' as [|fuel']; [lia|].
  simpl in *. destruct (currentLine w) as [line|]; [|exact E].
  destruct (gtQ _ _); [|exact E].
  destruct (numLines w <? _maxLines w); [|exact E].
  destruct (processCharFrom fuel char (breakLine line w)) as [[d r]|] eqn:E';
    [|discriminate].
  rewrite (IH fuel' _ _ E') by lia. exact E.
Qed.

(** The body of [processChar], read once. *)
Lemma processChar_eq (char : string) (w : Window) :
  processChar char w =
  match currentLine w with
  | None => TypeError w
  | Some line =>
    if gtQ (textWidth (potentialLineOf line char w)) maxWidth then
      if numLines w <? _maxLines w then
        processChar char (breakLine line w)
      else Ok w
    else Ok (insertAtCaret line char w)
  end.
Proof.
  unfold processChar at 1.
  destruct (processCharFuel w) as [|fuel] eqn:Ef;
    [unfold processCharFuel in Ef; discriminate|].
  simpl. destruct (currentLine w) as [line|]; [|reflexivity].
  destruct (gtQ _ _); [|reflexivity].
  destruct (Z.ltb_spec (numLines w) (_maxLines w)) as [Hlt|Hge];
    [|reflexivity].
  rewrite (processCharFuel_breakLine line w Hlt) in Ef.
  injection Ef as <-. unfold processChar.
  destruct (processCharFrom_total char _ (breakLine line w) (le_n _))
    as (d & r & E).
  rewrite E. reflexivity.
Qed.

(** The nesting depth of [processChar], read the same way. *)
Lemma processCharDepth_eq (char : string) (w : Window) :
  processCharDepth char w =
  match currentLine w with
  | None => O
  | Some line =>
    if gtQ (textWidth (potentialLineOf line char w)) maxWidth then
      if numLines w <? _maxLines w then
        S (processCharDepth char (breakLine line w))
      else O
    else O
  end.
Proof.
  unfold processCharDepth at 1.
  destruct (processCharFuel w) as [|fuel] eqn:Ef;
    [unfold processCharFuel in Ef; discriminate|].
  simpl. destruct (currentLine w) as [line|]; [|reflexivity].
  destruct (gtQ _ _); [|reflexivity].
  destruct (Z.ltb_spec (numLines w) (_maxLines w)) as [Hlt|Hge];
    [|reflexivity].
  rewrite (processCharFuel_breakLine line w Hlt) in Ef.
  injection Ef as <-. unfold processCharDepth.
  destruct (processCharFrom_total char _ (breakLine line w) (le_n _))
    as (d & r & E).
  rewrite E. reflexivity.
Qed.

(** Induction on the room left below [_maxLines], the measure that
    makes [processChar] terminate. *)
Lemma room_ind (P : Window -> Prop) :
  (forall w,
      (forall w', _maxLines w' - numLines w' < _maxLines w - numLines w ->
                  0 <= _maxLines w' - numLines w' -> P w') -> P w) ->
  forall w, P w.
Proof.
  intros Hstep w.
  remember (Z.to_nat (_maxLines w - numLines w)) as n eqn:En.
  assert (Hn : (Z.to_nat (_maxLines w - numLines w) <= n)%nat) by lia.
  clear En. revert w Hn.
  induction n as [|n IH]; intros w Hn; apply Hstep; intros w' Hlt Hpos.
  - lia.
  - apply IH. lia.
Qed.

(** *** The invariant is kept *)

Ltac wsimpl := unfold numLines, currentLine in *; simpl in *.

Lemma valid_intro (w : Window) (line : string) :
  numLines w <= _maxLines w ->
  currentLine w = Some line ->
  0 <= _cursorX w <= len line ->
  valid w.
Proof.
  intros Hm E Hx. apply caretValid_valid; [|exact Hm].
  exists line. split; assumption.
Qed.

Lemma valid_row (w : Window) (i : Z) :
  valid w -> 0 <= i < numLines w ->
  exists l, currentLine (setCursorY i w) = Some l.
Proof. intros _ Hi. apply index_in_range. exact Hi. Qed.

Lemma moveCursorLeft_valid (w : Window) :
  valid w -> exists w', moveCursorLeft w = Ok w' /\ valid w'.
Proof.
  intros V. pose proof V as (Hn & Hy & line & E & Hx).
  unfold moveCursorLeft.
  destruct (Z.ltb_spec 0 (_cursorX w)) as [Hx0|Hx0].
  - eexists. split; [reflexivity|].
    apply (valid_intro _ line); wsimpl; try assumption; lia.
  - destruct (Z.ltb_spec 0 (_cursorY w)) as [Hy0|Hy0]; [|eauto].
    destruct (valid_row w (_cursorY w - 1) V) as (l & El); [lia|].
    rewrite El. eexists. split; [reflexivity|].
    apply (valid_intro _ l); wsimpl; try assumption; try lia.
    pose proof (len_nonneg l). lia.
Qed.

Lemma moveCursorRight_valid (w : Window) :
  valid w -> exists w', moveCursorRight w = Ok w' /\ valid w'.
Proof.
  intros V. pose proof V as (Hn & Hy & line & E & Hx).
  unfold moveCursorRight. rewrite E.
  destruct (Z.ltb_spec (_cursorX w) (len line)) as [Hx0|Hx0].
  - eexists. split; [reflexivity|].
    apply (valid_intro _ line); wsimpl; try assumption; lia.
  - destruct (Z.ltb_spec (_cursorY w) (numLines w - 1)) as [Hy0|Hy0];
      [|eauto].
    destruct (valid_row w (_cursorY w + 1) V) as (l & El); [lia|].
    eexists. split; [reflexivity|].
    apply (valid_intro _ l); wsimpl; try assumption; try lia.
    pose proof (len_nonneg l). lia.
Qed.

Lemma moveCursorUp_valid (w : Window) :
  valid w -> exists w', moveCursorUp w = Ok w' /\ valid w'.
Proof.
  intros V. pose proof V as (Hn & Hy & line & E & Hx).
  unfold moveCursorUp.
  destruct (Z.ltb_spec 0 (_cursorY w)) as [Hy0|Hy0]; [|eauto].
  destruct (valid_row w (_cursorY w - 1) V) as (l & El); [lia|].
  rewrite El. eexists. split; [reflexivity|].
  apply (valid_intro _ l); wsimpl; try assumption; try lia.
  pose proof (len_nonneg l). lia.
Qed.

Lemma moveCursorDown_valid (w : Window) :
  valid w -> exists w', moveCursorDown w = Ok w' /\ valid w'.
Proof.
  intros V. pose proof V as (Hn & Hy & line & E & Hx).
  unfold moveCursorDown.
  destruct (Z.ltb_spec (_cursorY w) (numLines w - 1)) as [Hy0|Hy0];
    [|eauto].
  destruct (valid_row w (_cursorY w + 1) V) as (l & El); [lia|].
  rewrite El. eexists. split; [reflexivity|].
  apply (valid_intro _ l); wsimpl; try assumption; try lia.
  pose proof (len_nonneg l). lia.
Qed.

(** Replacing the caret's line and moving the caret within the new
    line. *)
Lemma replaceLine_valid (w : Window) (line line' : string) (x : Z) :
  valid w -> currentLine w = Some line ->
  0 <= x <= len line' ->
  valid (setCursorX x (setLines (assign (_lines w) (_cursorY w) line') w))
  /\ currentLine
       (setCursorX x (setLines (assign (_lines w) (_cursorY w) line') w))
     = Some line'.
Proof.
  intros (Hn & Hy & _) E Hx.
  destruct (currentLine_cut _ _ E) as (pre & post & El & Ey).
  assert (Ec : currentLine
            (setCursorX x
               (setLines (assign (_lines w) (_cursorY w) line') w))
          = Some line').
  { unfold currentLine; simpl. rewrite El, <- Ey, assign_at_cut.
    apply index_at_cut. }
  split; [|exact Ec].
  apply (valid_intro _ line'); [|exact Ec|exact Hx].
  unfold numLines in *; simpl. rewrite length_assign. lia.
Qed.

Lemma processChar_valid (char : string) (w : Window) :
  valid w -> exists w', processChar char w = Ok w' /\ valid w'.
Proof.
  pattern w. apply room_ind. clear w. intros w IH V.
  pose proof V as (Hn & Hy & line & E & Hx).
  rewrite processChar_eq, E.
  destruct (gtQ _ _).
  - destruct (Z.ltb_spec (numLines w) (_maxLines w)) as [Hlt|Hge];
      [|eauto].
    apply IH.
    + rewrite numLines_breakLine, maxLines_breakLine. lia.
    + rewrite numLines_breakLine, maxLines_breakLine. lia.
    + apply caretValid_valid.
      * apply breakLine_caretValid. exact E.
      * rewrite numLines_breakLine, maxLines_breakLine. lia.
  - eexists. split; [reflexivity|]. unfold insertAtCaret.
    apply (replaceLine_valid w line); [exact V | exact E |].
    unfold potentialLineOf. rewrite !len_append.
    destruct (slice_sliceFrom line (_cursorX w) Hx) as (_ & L1 & L2).
    simpl. rewrite L1, L2.
    pose proof (len_nonneg (processedCharOf char)). lia.
Qed.

Lemma processNewLine_valid (w : Window) :
  valid w -> exists w', processNewLine w = Ok w' /\ valid w'.
Proof.
  intros V. pose proof V as (Hn & Hy & line & E & Hx).
  unfold processNewLine.
  destruct (Z.leb_spec (_maxLines w) (numLines w)) as [Hge|Hlt]; [eauto|].
  rewrite E. eexists. split; [reflexivity|].
  apply caretValid_valid.
  - apply breakLine_caretValid. exact E.
  - rewrite numLines_breakLine, maxLines_breakLine. lia.
Qed.

(** Backspace at the start of a line other than the first: the line is
    appended to the one before it. *)
Lemma processBackspace_merge (w : Window) (pre post : list string)
      (prev line : string) :
  _lines w = (pre ++ prev :: line :: post)%list ->
  Z.of_nat (List.length pre) + 1 = _cursorY w ->
  _cursorX w <= 0 ->
  processBackspace w
  = Ok (setCursorY (_cursorY w - 1)
          (setLines (pre ++ (prev ++ line)%string :: post)
             (setCursorX (len prev) w))).
Proof.
  intros El Ey Hx. unfold processBackspace, currentLine.
  destruct (Z.ltb_spec 0 (_cursorX w)); [lia|].
  destruct (Z.ltb_spec 0 (_cursorY w)); [|lia].
  rewrite El, <- Ey, index_after_cut.
  replace (Z.of_nat (List.length pre) + 1 - 1)
    with (Z.of_nat (List.length pre)) by lia.
  rewrite index_at_cut. simpl.
  rewrite El, <- Ey.
  replace (Z.of_nat (List.length pre) + 1 - 1)
    with (Z.of_nat (List.length pre)) by lia.
  rewrite assign_at_cut, spliceRemove_after_cut. reflexivity.
Qed.

(** Backspace behind an escaped backslash: both units go. *)
Lemma processBackspace_escaped (w : Window) (pre post : list string)
      (a b : string) :
  _lines w = (pre ++ (a ++ "\\" ++ b)%string :: post)%list ->
  Z.of_nat (List.length pre) = _cursorY w ->
  _cursorX w = len a + 2 ->
  processBackspace w
  = Ok (setCursorX (_cursorX w - 2)
          (setLines (pre ++ (a ++ b)%string :: post) w)).
Proof.
  intros El Ey Ex.
  assert (S1 : slice (a ++ "\\" ++ b) (_cursorX w - 2) (_cursorX w)
               = "\\"%string).
  { replace (_cursorX w - 2) with (len a) by lia. rewrite Ex.
    exact (slice_middle a "\\" b). }
  assert (S2 : slice (a ++ "\\" ++ b) 0 (_cursorX w - 2) = a).
  { replace (_cursorX w - 2) with (len a) by lia. apply slice_prefix. }
  assert (S3 : sliceFrom (a ++ "\\" ++ b) (_cursorX w) = b).
  { rewrite <- append_assoc.
    replace (_cursorX w) with (len (a ++ "\\")).
    - apply sliceFrom_suffix.
    - rewrite len_append. change (len "\\") with 2. lia. }
  pose proof (len_nonneg a).
  unfold processBackspace, currentLine.
  rewrite El, <- Ey, index_at_cut.
  destruct (Z.ltb_spec 0 (_cursorX w)); [|lia].
  rewrite S1, String.eqb_refl. cbv zeta.
  rewrite S2, S3, assign_at_cut. reflexivity.
Qed.

(** Backspace behind any other character: that one unit goes. *)
Lemma processBackspace_single (w : Window) (pre post : list string)
      (a b : string) (c : ascii) :
  _lines w = (pre ++ (a ++ String c b)%string :: post)%list ->
  Z.of_nat (List.length pre) = _cursorY w ->
  _cursorX w = len a + 1 ->
  ~ (c = backslash /\ exists a', a = (a' ++ "\")%string) ->
  processBackspace w
  = Ok (setCursorX (_cursorX w - 1)
          (setLines (pre ++ (a ++ b)%string :: post) w)).
Proof.
  intros El Ey Ex Hne.
  pose proof (len_nonneg a) as Ha. pose proof (len_nonneg b) as Hb.
  assert (Hl : len (a ++ String c b) = len a + 1 + len b).
  { rewrite len_append. unfold len; simpl String.length. lia. }
  assert (S1 : slice (a ++ String c b) (_cursorX w - 2) (_cursorX w)
               <> "\\"%string).
  { intros S1.
    assert (H2 : 2 <= _cursorX w).
    { apply (slice_two_units (a ++ String c b)); [lia|].
      rewrite S1. reflexivity. }
    destruct (split_at a (Z.to_nat (len a - 1))) as (a' & d & -> & La);
      [unfold len in *; lia|].
    rewrite len_append in *.
    assert (Ld : String.length d = 1%nat) by (unfold len in *; lia).
    destruct d as [|x [|? ?]]; try discriminate.
    rewrite append_assoc in S1. simpl in S1.
    change (String x (String c b))
      with (String x (String c "") ++ b)%string in S1.
    replace (_cursorX w - 2) with (len a') in S1
      by (unfold len in *; simpl in *; lia).
    replace (_cursorX w) with (len a' + len (String x (String c ""))) in S1
      by (unfold len in *; simpl in *; lia).
    rewrite slice_middle in S1. injection S1 as -> ->.
    apply Hne. split; [reflexivity|]. exists a'. reflexivity. }
  assert (S2 : slice (a ++ String c b) 0 (_cursorX w - 1) = a).
  { replace (_cursorX w - 1) with (len a) by lia. apply slice_prefix. }
  assert (S3 : sliceFrom (a ++ String c b) (_cursorX w) = b).
  { change (a ++ String c b)%string
      with (a ++ (String c "" ++ b))%string.
    rewrite <- append_assoc.
    replace (_cursorX w) with (len (a ++ String c "")).
    - apply sliceFrom_suffix.
    - rewrite len_append. change (len (String c "")) with 1. lia. }
  unfold processBackspace, currentLine.
  rewrite El, <- Ey, index_at_cut.
  destruct (Z.ltb_spec 0 (_cursorX w)); [|lia].
  destruct (String.eqb_spec
              (slice (a ++ String c b) (_cursorX w - 2) (_cursorX w)) "\\")
    as [Ep|_]; [contradiction|].
  cbv zeta. rewrite S2, S3, assign_at_cut. reflexivity.
Qed.

(** Backspace at the very start of the buffer does nothing. *)
Lemma processBackspace_origin (w : Window) :
  _cursorX w <= 0 -> _cursorY w <= 0 -> processBackspace w = Ok w.
Proof.
  intros Hx Hy. unfold processBackspace.
  destruct (Z.ltb_spec 0 (_cursorX w)); [lia|].
  destruct (Z.ltb_spec 0 (_cursorY w)); [lia|]. reflexivity.
Qed.

Lemma processBackspace_valid (w : Window) :
  valid w -> exists w', processBackspace w = Ok w' /\ valid w'.
Proof.
  intros V. pose proof V as (Hn & Hy & line & E & Hx).
  destruct (Z.ltb_spec 0 (_cursorX w)) as [Hx0|Hx0].
  - unfold processBackspace. rewrite E.
    destruct (Z.ltb_spec 0 (_cursorX w)); [|lia].
    destruct (String.eqb_spec (slice line (_cursorX w - 2) (_cursorX w))
                              "\\") as [Ep|Ep];
      (eexists; split; [reflexivity|]).
    + assert (2 <= _cursorX w)
        by (apply (slice_two_units line); [lia | now rewrite Ep]).
      apply (replaceLine_valid w line); [exact V | exact E |].
      rewrite len_append.
      destruct (slice_sliceFrom line (_cursorX w - 2)) as (_ & L1 & _);
        [lia|].
      pose proof (len_nonneg (sliceFrom line (_cursorX w))).
      wsimpl. lia.
    + apply (replaceLine_valid w line); [exact V | exact E |].
      rewrite len_append.
      destruct (slice_sliceFrom line (_cursorX w - 1)) as (_ & L1 & _);
        [lia|].
      pose proof (len_nonneg (sliceFrom line (_cursorX w))).
      wsimpl. lia.
  - destruct (Z.ltb_spec 0 (_cursorY w)) as [Hy0|Hy0].
    + destruct (currentLine_cut _ _ E) as (pre & post & El & Ey).
      destruct (exists_last (l := pre)) as (pre' & prev & ->).
      { intros ->. simpl in Ey. lia. }
      rewrite length_app in Ey. simpl in Ey.
      rewrite <- app_assoc in El. simpl in El.
      rewrite (processBackspace_merge w pre' post prev line El)
        by lia.
      eexists. split; [reflexivity|].
      apply (valid_intro _ (prev ++ line)%string).
      * unfold numLines in *; simpl. rewrite El in Hn.
        rewrite length_app in *. simpl in *. lia.
      * unfold currentLine; simpl.
        replace (_cursorY w - 1) with (Z.of_nat (List.length pre'))
          by lia.
        apply index_at_cut.
      * simpl. rewrite len_append. pose proof (len_nonneg prev).
        pose proof (len_nonneg line). lia.
    + unfold processBackspace.
      destruct (Z.ltb_spec 0 (_cursorX w)); [lia|].
      destruct (Z.ltb_spec 0 (_cursorY w)); [lia|].
      eauto.
Qed.

(** *** One character, with and without wrapping *)

Lemma insertAtCaret_cut (w : Window) (line char : string)
      (pre post : list string) :
  _lines w = (pre ++ line :: post)%list ->
  Z.of_nat (List.length pre) = _cursorY w ->
  _lines (insertAtCaret line char w)
  = (pre ++ potentialLineOf line char w :: post)%list
  /\ _cursorX (insertAtCaret line char w)
     = _cursorX w + len (processedCharOf char)
  /\ _cursorY (insertAtCaret line char w) = _cursorY w.
Proof.
  intros El Ey. unfold insertAtCaret; simpl.
  rewrite El, <- Ey, assign_at_cut. repeat split.
Qed.

(** The character fits: it is inserted at the caret, without a nested
    call. *)
Lemma processChar_fits (char : string) (w : Window) (line : string) :
  currentLine w = Some line ->
  (textWidth (potentialLineOf line char w) <= maxWidth)%Q ->
  processChar char w = Ok (insertAtCaret line char w)
  /\ processCharDepth char w = O.
Proof.
  intros E F. apply gtQ_false in F.
  rewrite processChar_eq, processCharDepth_eq, E, F. split; reflexivity.
Qed.

(** The buffer is full: an overflowing character is dropped. *)
Lemma processChar_full (char : string) (w : Window) (line : string) :
  currentLine w = Some line ->
  (maxWidth < textWidth (potentialLineOf line char w))%Q ->
  _maxLines w <= numLines w ->
  processChar char w = Ok w /\ processCharDepth char w = O.
Proof.
  intros E F Hm. apply gtQ_true in F.
  rewrite processChar_eq, processCharDepth_eq, E, F.
  destruct (Z.ltb_spec (numLines w) (_maxLines w)); [lia|].
  split; reflexivity.
Qed.

(** The character overflows, and fits in front of what lies right of the
    caret: the line is broken once and the character inserted at the start
    of the new line. *)
Lemma processChar_wraps_once (char : string) (w : Window) (line : string) :
  currentLine w = Some line ->
  (maxWidth < textWidth (potentialLineOf line char w))%Q ->
  numLines w < _maxLines w ->
  (textWidth (processedCharOf char ++ sliceFrom line (_cursorX w))
   <= maxWidth)%Q ->
  processChar char w
  = Ok (insertAtCaret (sliceFrom line (_cursorX w)) char (breakLine line w))
  /\ processCharDepth char w = 1%nat.
Proof.
  intros E F Hm G. apply gtQ_true in F.
  rewrite processChar_eq, processCharDepth_eq, E, F.
  destruct (Z.ltb_spec (numLines w) (_maxLines w)); [|lia].
  destruct (currentLine_cut _ _ E) as (pre & post & El & Ey).
  destruct (breakLine_cut _ _ _ _ El Ey) as (_ & _ & Ex & Ec).
  destruct (processChar_fits char (breakLine line w) _ Ec) as (-> & ->).
  - unfold potentialLineOf. rewrite Ex, slice_0_0, sliceFrom_0. exact G.
  - split; reflexivity.
Qed.

(** At most one nested call per line that may still be added. *)
Lemma processCharDepth_bound (char : string) (w : Window) :
  (processCharDepth char w <= Z.to_nat (_maxLines w - numLines w))%nat.
Proof.
  pattern w. apply room_ind. clear w. intros w IH.
  rewrite processCharDepth_eq.
  destruct (currentLine w) as [line|]; [|lia].
  destruct (gtQ _ _); [|lia].
  destruct (Z.ltb_spec (numLines w) (_maxLines w)) as [Hlt|Hge]; [|lia].
  assert (B : (processCharDepth char (breakLine line w)
               <= Z.to_nat (_maxLines (breakLine line w)
                            - numLines (breakLine line w)))%nat).
  { apply IH; rewrite numLines_breakLine, maxLines_breakLine; lia. }
  rewrite numLines_breakLine, maxLines_breakLine in B. lia.
Qed.

(** *** Pointer taps *)

(** The scan stops at the first index left of whose middle [x] lies, and
    runs to the end of the range when there is none. *)
Lemma touchScan_first (line : string) (x : Q) (n : nat) (i : Z) :
  let r := touchScan line x i n i in
  i <= r <= i + Z.of_nat n
  /\ (forall j, i <= j < r -> ~ leftOfMiddle line x j)
  /\ (r < i + Z.of_nat n -> leftOfMiddle line x r).
Proof.
  revert i; induction n as [|n IH]; intros i; cbn [touchScan]; cbv zeta.
  - split; [lia|]. split; [intros j Hj; lia | intros Hlt; lia].
  - destruct (ltQ x _) eqn:T.
    + apply ltQ_true in T.
      split; [lia|]. split; [intros j Hj; lia | intros _; exact T].
    + apply ltQ_false in T.
      destruct (IH (i + 1)) as (Hr & Hbefore & Hat).
      split; [lia|]. split.
      * intros j Hj. destruct (Z.eq_dec j i) as [->|Hne].
        -- unfold leftOfMiddle. apply Qle_not_lt. exact T.
        -- apply Hbefore. lia.
      * intros Hlt. apply Hat. lia.
Qed.

Lemma touchedLine_nonneg (y : Q) :
  (0 < lineHeight)%Q -> (0 <= y)%Q -> 0 <= Qfloor (y / lineHeight).
Proof.
  intros Hl Hy.
  change 0 with (Qfloor 0). apply Qfloor_resp_le.
  apply Qle_shift_div_l; [exact Hl|]. rewrite Qmult_0_l. exact Hy.
Qed.

Lemma touchedLine_negative (y : Q) :
  (0 < lineHeight)%Q -> (y < 0)%Q -> Qfloor (y / lineHeight) < 0.
Proof.
  intros Hl Hy.
  assert (H : (y / lineHeight < 0)%Q).
  { apply Qlt_shift_div_r; [exact Hl|]. rewrite Qmult_0_l. exact Hy. }
  rewrite Zlt_Qlt.
  apply (Qle_lt_trans _ (y / lineHeight)); [apply Qfloor_le | exact H].
Qed.

Lemma moveCursorToTouch_valid (x y : Q) (w : Window) :
  (0 < lineHeight)%Q -> (0 <= y)%Q ->
  valid w -> exists w', moveCursorToTouch x y w = Ok w' /\ valid w'.
Proof.
  intros Hl Hy V. pose proof V as (Hn & _).
  pose proof (touchedLine_nonneg y Hl Hy) as Ht.
  unfold moveCursorToTouch.
  destruct (Z.ltb_spec (Qfloor (y / lineHeight)) (numLines w)) as [Hlt|Hge];
    [|eauto].
  destruct (valid_row w (Qfloor (y / lineHeight)) V) as (l & El); [lia|].
  rewrite El. eexists. split; [reflexivity|].
  apply (valid_intro _ l); wsimpl; try assumption; try lia.
  destruct (touchScan_first l x (String.length l) 0) as (Hr & _).
  unfold len. lia.
Qed.

(** *** Sequences of operations *)

Lemma applyOp_valid (o : Op) (w : Window) :
  (0 < lineHeight)%Q -> belowPadding o ->
  valid w -> exists w', applyOp o w = Ok w' /\ valid w'.
Proof.
  intros Hl Hb V. destruct o; simpl.
  - apply processChar_valid; exact V.
  - apply processBackspace_valid; exact V.
  - apply processNewLine_valid; exact V.
  - apply moveCursorLeft_valid; exact V.
  - apply moveCursorRight_valid; exact V.
  - apply moveCursorUp_valid; exact V.
  - apply moveCursorDown_valid; exact V.
  - apply moveCursorToTouch_valid; assumption.
Qed.

Lemma forEach_valid {A} (f : A -> Window -> outcome) (P : A -> Prop)
      (xs : list A) (w : Window) :
  (forall x w0, P x -> valid w0 -> exists w', f x w0 = Ok w' /\ valid w') ->
  Forall P xs ->
  valid w -> exists w', forEach f xs w = Ok w' /\ valid w'.
Proof.
  intros Hf Hxs. revert w.
  induction Hxs as [|x xs Hx _ IH]; intros w V; simpl; [eauto|].
  destruct (Hf x w Hx V) as (w1 & E1 & V1). rewrite E1. simpl.
  apply IH. exact V1.
Qed.

Lemma repeatN_valid (f : Window -> outcome) (n : nat) (w : Window) :
  (forall w0, valid w0 -> exists w', f w0 = Ok w' /\ valid w') ->
  valid w -> exists w', repeatN f n w = Ok w' /\ valid w'.
Proof.
  intros Hf. revert w. induction n as [|n IH]; intros w V; simpl; [eauto|].
  destruct (Hf w V) as (w1 & E1 & V1). rewrite E1. simpl.
  apply IH. exact V1.
Qed.

(** Every operation keeps the invariant, as long as no tap lands in the
    padding above the first text row. *)
Lemma ops_keep_valid (maxLines : Z) (ops : list Op) :
  (0 < lineHeight)%Q -> 1 <= maxLines ->
  Forall belowPadding ops ->
  exists w', forEach applyOp ops (initialize maxLines) = Ok w' /\ valid w'.
Proof.
  intros Hl Hm Hops.
  apply (forEach_valid applyOp belowPadding); try assumption.
  - intros o w0 Ho V. apply applyOp_valid; assumption.
  - apply initialize_valid. exact Hm.
Qed.

End EditorFacts.

(** * The properties of the specification *)

(** ** Dropped characters *)

(** C10. When the buffer already holds [_maxLines] lines and the line with
    the character inserted at the caret exceeds the available width,
    [processChar] returns with the window as it was: the lines, the caret
    row and the caret column are unchanged. *)
Theorem C10_full_buffer_drops_character
        (host : WindowBase) (w : Window) (char line : string) :
  currentLine w = Some line ->
  numLines w = _maxLines w ->
  (maxWidth < textWidth (potentialLineOf line char w))%Q ->
  processChar char w = Ok w
  /\ _lines (windowOf (processChar char w)) = _lines w
  /\ _cursorY (windowOf (processChar char w)) = _cursorY w
  /\ _cursorX (windowOf (processChar char w)) = _cursorX w.
Proof.
  intros E Hn F.
  destruct (processChar_full char w line E F) as (-> & _); [lia|].
  repeat split.
Qed.

Lemma C10_witness :
  currentLine exFull = Some "abcde"%string
  /\ numLines exFull = _maxLines exFull
  /\ (@maxWidth mockHost
      < @textWidth mockHost (potentialLineOf "abcde" "f" exFull))%Q
  /\ @processChar mockHost "f" exFull = Ok exFull.
Proof.
  assert (E : currentLine exFull = Some "abcde"%string) by reflexivity.
  assert (N : numLines exFull = _maxLines exFull) by reflexivity.
  assert (F : (@maxWidth mockHost
               < @textWidth mockHost (potentialLineOf "abcde" "f" exFull))%Q)
    by reflexivity.
  split; [exact E|]. split; [exact N|]. split; [exact F|].
  exact (proj1 (C10_full_buffer_drops_character mockHost exFull "f" "abcde"
                  E N F)).
Defined.

(** ** Escaped backslashes *)

(** C9. With the escaping of src/Reishandy_TextInput.js, a backslash
    inserted into an empty line through [processChar] makes the line two
    backslashes and advances the caret by 2 (the two backslashes fitting
    the available width); one [processBackspace] then removes both and
    gives back the empty line with the caret in column 0. *)
Theorem C9_backslash_is_doubled_and_deleted_as_one
        (host : WindowBase) (w : Window) :
  currentLine w = Some ""%string ->
  _cursorX w = 0 ->
  (textWidth "\\" <= maxWidth)%Q ->
  exists w1 w2,
    processChar "\" w = Ok w1
    /\ currentLine w1 = Some "\\"%string
    /\ _cursorX w1 = _cursorX w + 2
    /\ _cursorY w1 = _cursorY w
    /\ processBackspace w1 = Ok w2
    /\ currentLine w2 = Some ""%string
    /\ _cursorX w2 = 0
    /\ _cursorY w2 = _cursorY w
    /\ _lines w2 = _lines w.
Proof.
  intros E Ex F.
  destruct (JSFacts.index_cut _ _ _ E) as (pre & post & El & Ey).
  assert (P : potentialLineOf "" "\" w = "\\"%string)
    by (unfold potentialLineOf; rewrite Ex; reflexivity).
  destruct (processChar_fits "\" w "" E) as (E1 & _);
    [rewrite P; exact F|].
  destruct (insertAtCaret_cut w "" "\" pre post El Ey) as (L1 & X1 & Y1).
  rewrite P in L1. change (JS.len (processedCharOf "\")) with 2 in X1.
  set (w1 := insertAtCaret "" "\" w) in *.
  assert (C1 : currentLine w1 = Some "\\"%string).
  { unfold currentLine. rewrite L1, Y1, <- Ey. apply JSFacts.index_at_cut. }
  assert (B : processBackspace w1
              = Ok (setCursorX (_cursorX w1 - 2)
                      (setLines (pre ++ ("" ++ "")%string :: post) w1))).
  { apply (processBackspace_escaped w1 pre post "" "").
    - exact L1.
    - rewrite Y1. exact Ey.
    - rewrite X1, Ex. reflexivity. }
  exists w1. eexists. split; [exact E1|]. split; [exact C1|].
  split; [exact X1|]. split; [exact Y1|]. split; [exact B|].
  split; [|split; [|split]].
  - unfold currentLine. cbn [_lines _cursorY setCursorX setLines].
    rewrite Y1, <- Ey. apply JSFacts.index_at_cut.
  - cbn [_cursorX setCursorX]. rewrite X1, Ex. reflexivity.
  - cbn [_cursorY setCursorX setLines]. exact Y1.
  - cbn [_lines setCursorX setLines]. symmetry. exact El.
Qed.

Lemma C9_witness :
  currentLine exEmptyLine = Some ""%string
  /\ _cursorX exEmptyLine = 0
  /\ (@textWidth mockHost "\\" <= @maxWidth mockHost)%Q
  /\ exists w1 w2,
      @processChar mockHost "\" exEmptyLine = Ok w1
      /\ currentLine w1 = Some "\\"%string
      /\ _cursorX w1 = _cursorX exEmptyLine + 2
      /\ _cursorY w1 = _cursorY exEmptyLine
      /\ processBackspace w1 = Ok w2
      /\ currentLine w2 = Some ""%string
      /\ _cursorX w2 = 0
      /\ _cursorY w2 = _cursorY exEmptyLine
      /\ _lines w2 = _lines exEmptyLine.
Proof.
  assert (E : currentLine exEmptyLine = Some ""%string) by reflexivity.
  assert (X : _cursorX exEmptyLine = 0) by reflexivity.
  assert (F : (@textWidth mockHost "\\" <= @maxWidth mockHost)%Q)
    by (vm_compute; discriminate).
  split; [exact E|]. split; [exact X|]. split; [exact F|].
  exact (C9_backslash_is_doubled_and_deleted_as_one mockHost exEmptyLine
           E X F).
Defined.

(** C9 as the specification words it fails in a window that holds one
    character on a line: the two backslashes never fit, so [processChar]
    breaks the line until the buffer is full and then drops the
    character; the buffer is three empty lines with the caret in column 0
    of the last, and [processBackspace] joins two of them instead of
    giving back the one empty line. *)
Lemma C9_counterexample :
  (@textWidth narrowHost "\" <= @maxWidth narrowHost)%Q
  /\ ~ (@textWidth narrowHost "\\" <= @maxWidth narrowHost)%Q
  /\ @processChar narrowHost "\" (initialize 3)
     = Ok (exWindow 3 [""; ""; ""]%string 0 2)
  /\ currentLine (exWindow 3 [""; ""; ""]%string 0 2) <> Some "\\"%string
  /\ _cursorX (exWindow 3 [""; ""; ""]%string 0 2)
     <> _cursorX (initialize 3) + 2
  /\ processBackspace (exWindow 3 [""; ""; ""]%string 0 2)
     = Ok (exWindow 3 [""; ""]%string 0 1)
  /\ _lines (exWindow 3 [""; ""]%string 0 1) <> _lines (initialize 3).
Proof.
  split; [vm_compute; discriminate|].
  split; [intros H; vm_compute in H; apply H; reflexivity|].
  split; [reflexivity|]. split; [discriminate|].
  split; [discriminate|]. split; [reflexivity | discriminate].
Qed.

(** ** Deleting to the left *)

(** C6, as the code has it.  [processBackspace] on a window whose caret is
    on [line]:
    - behind a character that is not the second of two backslashes, it
      removes that one character and moves the caret one column left;
    - behind two backslashes (an escaped backslash), it removes both and
      moves the caret two columns left;
    - at column 0 of a line that has a line [prev] before it, it replaces
      the two lines by [prev ++ line], puts the caret at row - 1 and at the
      column that was the length of [prev], and the buffer is one line
      shorter;
    - at column 0 of row 0 it changes nothing. *)
Theorem C6_deleteLeft_cases
        (w : Window) (pre post : list string) (line : string) :
  _lines w = (pre ++ line :: post)%list ->
  Z.of_nat (List.length pre) = _cursorY w ->
  (forall a c b,
      line = (a ++ String c b)%string ->
      _cursorX w = JS.len a + 1 ->
      ~ (c = backslash /\ exists a', a = (a' ++ "\")%string) ->
      processBackspace w
      = Ok (setCursorX (_cursorX w - 1)
              (setLines (pre ++ (a ++ b)%string :: post) w)))
  /\ (forall a b,
      line = (a ++ "\\" ++ b)%string ->
      _cursorX w = JS.len a + 2 ->
      processBackspace w
      = Ok (setCursorX (_cursorX w - 2)
              (setLines (pre ++ (a ++ b)%string :: post) w)))
  /\ (forall pre' prev,
      _cursorX w = 0 ->
      pre = (pre' ++ [prev])%list ->
      processBackspace w
      = Ok (setCursorY (_cursorY w - 1)
              (setLines (pre' ++ (prev ++ line)%string :: post)
                 (setCursorX (JS.len prev) w)))
      /\ numLines (windowOf (processBackspace w)) = numLines w - 1)
  /\ (_cursorX w = 0 -> _cursorY w = 0 -> processBackspace w = Ok w).
Proof.
  intros El Ey. split; [|split; [|split]].
  - intros a c b -> Ex Hne.
    apply (processBackspace_single w pre post a b c); assumption.
  - intros a b -> Ex.
    apply (processBackspace_escaped w pre post a b); assumption.
  - intros pre' prev Ex ->.
    rewrite <- app_assoc in El. simpl in El.
    rewrite length_app in Ey. simpl in Ey.
    rewrite (processBackspace_merge w pre' post prev line El) by lia.
    split; [reflexivity|].
    unfold numLines; simpl. rewrite El, !length_app. simpl. lia.
  - intros Ex Ey0. apply processBackspace_origin; lia.
Qed.

Lemma C6_witness :
  processBackspace exSecondLine = Ok (exWindow 3 ["ab"; "d"]%string 0 1)
  /\ processBackspace exEscaped = Ok (exWindow 3 [""%string] 0 0)
  /\ processBackspace exSecondLineStart = Ok (exWindow 3 ["abcd"%string] 2 0)
  /\ processBackspace (initialize 3) = Ok (initialize 3).
Proof.
  split; [|split; [|split]].
  - refine (proj1 (C6_deleteLeft_cases exSecondLine ["ab"%string] []
                     "cd" eq_refl eq_refl)
                  ""%string "c"%char "d"%string eq_refl eq_refl _).
    intros [H _]. discriminate H.
  - exact (proj1 (proj2 (C6_deleteLeft_cases exEscaped [] [] "\\"
                           eq_refl eq_refl))
           ""%string ""%string eq_refl eq_refl).
  - exact (proj1 (proj1 (proj2 (proj2
             (C6_deleteLeft_cases exSecondLineStart ["ab"%string] [] "cd"
                eq_refl eq_refl))) [] "ab"%string eq_refl eq_refl)).
  - exact (proj2 (proj2 (proj2
             (C6_deleteLeft_cases (initialize 3) [] [] "" eq_refl eq_refl)))
             eq_refl eq_refl).
Defined.

(** C6 as the specification words it fails behind an escaped backslash:
    with the caret in column 2 behind two backslashes, one
    [processBackspace] removes two characters and the caret goes to
    column 0, not to column 1. *)
Lemma C6_counterexample :
  0 < _cursorX exEscaped
  /\ _lines exEscaped = ["\\"%string]
  /\ processBackspace exEscaped = Ok (exWindow 3 [""%string] 0 0)
  /\ _cursorX (windowOf (processBackspace exEscaped))
     <> _cursorX exEscaped - 1.
Proof.
  split; [reflexivity|]. split; [reflexivity|]. split; [reflexivity|].
  discriminate.
Qed.

(** In src/Reishandy_TextInput_old.js, which does not escape, backspace
    behind any character removes that one character: there the first case
    of C6 holds without the exception for escaped backslashes, and at
    column 0 the two versions agree. *)
Lemma old_processBackspace_single (w : Window) (pre post : list string)
      (a b : string) (c : ascii) :
  _lines w = (pre ++ (a ++ String c b)%string :: post)%list ->
  Z.of_nat (List.length pre) = _cursorY w ->
  _cursorX w = JS.len a + 1 ->
  Reishandy_TextInput_old.processBackspace w
  = Ok (setCursorX (_cursorX w - 1)
          (setLines (pre ++ (a ++ b)%string :: post) w)).
Proof.
  intros El Ey Ex. pose proof (JSFacts.len_nonneg a) as Ha.
  assert (S2 : JS.slice (a ++ String c b) 0 (_cursorX w - 1) = a).
  { replace (_cursorX w - 1) with (JS.len a) by lia.
    apply JSFacts.slice_prefix. }
  assert (S3 : JS.sliceFrom (a ++ String c b) (_cursorX w) = b).
  { change (a ++ String c b)%string
      with (a ++ (String c "" ++ b))%string.
    rewrite <- JSFacts.append_assoc.
    replace (_cursorX w) with (JS.len (a ++ String c "")).
    - apply JSFacts.sliceFrom_suffix.
    - rewrite JSFacts.len_append. change (JS.len (String c "")) with 1. lia. }
  unfold Reishandy_TextInput_old.processBackspace, currentLine.
  rewrite El, <- Ey, JSFacts.index_at_cut.
  destruct (Z.ltb_spec 0 (_cursorX w)); [|lia].
  cbv zeta. rewrite S2, S3, JSFacts.assign_at_cut. reflexivity.
Qed.

Lemma old_processBackspace_at_column_0 (w : Window) :
  _cursorX w <= 0 ->
  Reishandy_TextInput_old.processBackspace w = processBackspace w.
Proof.
  intros Hx.
  unfold Reishandy_TextInput_old.processBackspace, processBackspace.
  destruct (Z.ltb_spec 0 (_cursorX w)); [lia | reflexivity].
Qed.

(** ** The nesting of [processChar] *)

(** C4, as the code has it.  [processChar] returns, after at most one
    nested call per line that the buffer may still take; when the line
    with the character overflows, the buffer is below [_maxLines] and the
    character fits in front of the text right of the caret, the line is
    broken once, the character is inserted at the start of the new line
    and there is exactly one nested call. *)
Theorem C4_processChar_nesting (host : WindowBase) (w : Window)
        (char : string) :
  (exists d r, processCharFrom (processCharFuel w) char w = Some (d, r))
  /\ (processCharDepth char w <= Z.to_nat (_maxLines w - numLines w))%nat
  /\ (forall line,
         currentLine w = Some line ->
         (maxWidth < textWidth (potentialLineOf line char w))%Q ->
         numLines w < _maxLines w ->
         (textWidth (processedCharOf char ++ JS.sliceFrom line (_cursorX w))
          <= maxWidth)%Q ->
         processCharDepth char w = 1%nat
         /\ processChar char w
            = Ok (insertAtCaret (JS.sliceFrom line (_cursorX w)) char
                                (breakLine line w))).
Proof.
  split; [|split].
  - apply processCharFrom_total. apply le_n.
  - apply processCharDepth_bound.
  - intros line E F Hm G.
    destruct (processChar_wraps_once char w line E F Hm G) as (-> & ->).
    split; reflexivity.
Qed.

Lemma C4_witness :
  currentLine exCapacityInside = Some "abcde"%string
  /\ (@maxWidth mockHost
      < @textWidth mockHost
          (potentialLineOf "abcde" "x" exCapacityInside))%Q
  /\ numLines exCapacityInside < _maxLines exCapacityInside
  /\ (@textWidth mockHost
        (processedCharOf "x"
           ++ JS.sliceFrom "abcde" (_cursorX exCapacityInside))
      <= @maxWidth mockHost)%Q
  /\ @processCharDepth mockHost "x" exCapacityInside = 1%nat
  /\ @processChar mockHost "x" exCapacityInside
     = Ok (exWindow 3 ["ab"; "xcde"]%string 1 1).
Proof.
  assert (E : currentLine exCapacityInside = Some "abcde"%string)
    by reflexivity.
  assert (F : (@maxWidth mockHost
               < @textWidth mockHost
                   (potentialLineOf "abcde" "x" exCapacityInside))%Q)
    by reflexivity.
  assert (N : numLines exCapacityInside < _maxLines exCapacityInside)
    by reflexivity.
  assert (G : (@textWidth mockHost
                 (processedCharOf "x"
                    ++ JS.sliceFrom "abcde" (_cursorX exCapacityInside))
               <= @maxWidth mockHost)%Q)
    by (vm_compute; discriminate).
  split; [exact E|]. split; [exact F|]. split; [exact N|].
  split; [exact G|].
  exact (proj2 (proj2 (C4_processChar_nesting mockHost exCapacityInside "x"))
           "abcde"%string E F N G).
Defined.

(** C4 as the specification words it fails when the caret is at the start
    of a line at capacity: the candidate overflows and the buffer is below
    [_maxLines], yet the retried insertion overflows again, a second line
    break follows (two nested calls), and the character is dropped once
    [_maxLines] is reached. *)
Lemma C4_counterexample :
  currentLine exCapacityStart = Some "abcde"%string
  /\ (@maxWidth mockHost
      < @textWidth mockHost
          (potentialLineOf "abcde" "x" exCapacityStart))%Q
  /\ numLines exCapacityStart < _maxLines exCapacityStart
  /\ @processCharDepth mockHost "x" exCapacityStart = 2%nat
  /\ @processChar mockHost "x" exCapacityStart
     = Ok (exWindow 3 [""; ""; "abcde"]%string 0 2).
Proof.
  repeat split.
Qed.

(** ** The invariant and pointer taps *)

(** C1 does not hold for every pointer tap.  A touch inside the window
    and above the first text row (in the top padding) is accepted by
    [updateTouchInput], which calls [moveCursorToTouch] with a negative
    [y].  That passes the only test of [moveCursorToTouch],
    [touchedLine < this._lines.length]: the caret row becomes negative,
    reading the line yields [undefined], the method raises, and the editor
    is left with a caret outside the buffer.  For taps with [0 <= y] and
    all other operations the invariant is kept ([ops_keep_valid]). *)
Theorem C1_tap_in_top_padding_breaks_caret
        (host : WindowBase) (maxLines : Z) (touchX touchY : Q) :
  (0 < lineHeight)%Q ->
  isTouchedInside touchX touchY = true ->
  (touchY < windowY + padding)%Q ->
  let x := (touchX - windowX - padding)%Q in
  let y := (touchY - windowY - padding)%Q in
  updateTouchInput true touchX touchY (initialize maxLines)
  = applyOp (Tap x y) (initialize maxLines)
  /\ applyOp (Tap x y) (initialize maxLines)
     = TypeError (setCursorY (Qfloor (y / lineHeight)) (initialize maxLines))
  /\ _cursorY (windowOf (applyOp (Tap x y) (initialize maxLines))) < 0
  /\ ~ valid (windowOf (applyOp (Tap x y) (initialize maxLines))).
Proof.
  intros Hl Hin Hpad x y.
  assert (Hy : (y < 0)%Q) by (unfold y; lra).
  pose proof (touchedLine_negative y Hl Hy) as Ht.
  assert (E : applyOp (Tap x y) (initialize maxLines)
              = TypeError (setCursorY (Qfloor (y / lineHeight))
                                      (initialize maxLines))).
  { simpl. unfold moveCursorToTouch.
    change (numLines (initialize maxLines)) with 1.
    destruct (Z.ltb_spec (Qfloor (y / lineHeight)) 1); [|lia].
    unfold currentLine, JS.index. cbn [_cursorY setCursorY].
    destruct (Z.ltb_spec (Qfloor (y / lineHeight)) 0); [|lia].
    reflexivity. }
  split.
  { unfold updateTouchInput. rewrite Hin. reflexivity. }
  rewrite E. split; [reflexivity|]. split; [exact Ht|].
  intros (_ & Hrow & _).
  cbn [windowOf _cursorY setCursorY] in Hrow. lia.
Qed.

Lemma C1_witness :
  (0 < @lineHeight mockHost)%Q
  /\ @isTouchedInside mockHost 20 5 = true
  /\ (5 < @windowY mockHost + @padding mockHost)%Q
  /\ @updateTouchInput mockHost true 20 5 (initialize 3)
     = @applyOp mockHost (Tap (20 - 0 - 12) (5 - 0 - 12)) (initialize 3)
  /\ @applyOp mockHost (Tap (20 - 0 - 12) (5 - 0 - 12)) (initialize 3)
     = TypeError (exWindow 3 [""%string] 0 (-1)).
Proof.
  assert (Hl : (0 < @lineHeight mockHost)%Q) by reflexivity.
  assert (Hin : @isTouchedInside mockHost 20 5 = true) by reflexivity.
  assert (Hpad : (5 < @windowY mockHost + @padding mockHost)%Q)
    by reflexivity.
  split; [exact Hl|]. split; [exact Hin|]. split; [exact Hpad|].
  pose proof (C1_tap_in_top_padding_breaks_caret mockHost 3 20 5
                Hl Hin Hpad) as (H1 & H2 & _).
  split; [exact H1 | exact H2].
Defined.

(** C3, as the code has it.  For a tap whose row holds [line], let [k] be
    the first index left of whose middle [x] lies, or the length of
    [line] when there is none; [moveCursorToTouch] puts the caret one
    column left of [k], at [max 0 (k - 1)].  For the line "ab" with
    characters 10 pixels wide, taps at x = 4, 16 and 25 give the columns
    0, 1 and 1. *)
Theorem C3_tap_column :
  (forall (host : WindowBase) (w : Window) (x y : Q) (line : string),
      JS.index (_lines w) (Qfloor (y / lineHeight)) = Some line ->
      exists k,
        0 <= k <= JS.len line
        /\ (forall j, 0 <= j < k -> ~ leftOfMiddle line x j)
        /\ (k < JS.len line -> leftOfMiddle line x k)
        /\ moveCursorToTouch x y w
           = Ok (setCursorX (Z.max 0 (k - 1))
                   (setCursorY (Qfloor (y / lineHeight)) w)))
  /\ @moveCursorToTouch mockHost 4 0 exAb = Ok (exWindow 3 ["ab"%string] 0 0)
  /\ @moveCursorToTouch mockHost 16 0 exAb = Ok (exWindow 3 ["ab"%string] 1 0)
  /\ @moveCursorToTouch mockHost 25 0 exAb = Ok (exWindow 3 ["ab"%string] 1 0).
Proof.
  split; [|repeat split].
  intros host w x y line E.
  pose proof (JSFacts.index_Some _ _ _ E) as Hr.
  destruct (touchScan_first line x (String.length line) 0) as (Hk & Hb & Ha).
  exists (touchScan line x 0 (String.length line) 0).
  split; [exact Hk|]. split; [exact Hb|]. split; [exact Ha|].
  unfold moveCursorToTouch. fold (numLines w) in Hr.
  destruct (Z.ltb_spec (Qfloor (y / lineHeight)) (numLines w)); [|lia].
  unfold currentLine. cbn [_lines _cursorY setCursorY]. rewrite E.
  reflexivity.
Qed.

Lemma C3_witness :
  JS.index (_lines exAb) (Qfloor (4 / @lineHeight mockHost)) = Some "ab"%string
  /\ exists k,
      0 <= k <= JS.len "ab"
      /\ (forall j, 0 <= j < k -> ~ @leftOfMiddle mockHost "ab" 16 j)
      /\ (k < JS.len "ab" -> @leftOfMiddle mockHost "ab" 16 k)
      /\ @moveCursorToTouch mockHost 16 4 exAb
         = Ok (setCursorX (Z.max 0 (k - 1))
                 (setCursorY (Qfloor (4 / @lineHeight mockHost)) exAb)).
Proof.
  assert (E : JS.index (_lines exAb) (Qfloor (4 / @lineHeight mockHost))
              = Some "ab"%string) by reflexivity.
  split; [exact E|].
  exact (proj1 C3_tap_column mockHost exAb 16%Q 4%Q "ab"%string E).
Defined.

(** C3 as the specification words it fails at the tap x = 25 on "ab": [x]
    lies left of the middle of no character, so the column should be the
    length of the line, 2, and the code gives column 1. *)
Lemma C3_counterexample :
  (forall i, 0 <= i < JS.len "ab" -> ~ @leftOfMiddle mockHost "ab" 25 i)
  /\ _cursorX (windowOf (@moveCursorToTouch mockHost 25 0 exAb)) = 1
  /\ _cursorX (windowOf (@moveCursorToTouch mockHost 25 0 exAb))
     <> JS.len "ab".
Proof.
  split; [|split; [reflexivity | discriminate]].
  intros i Hi. change (JS.len "ab") with 2 in Hi.
  assert (Hc : i = 0 \/ i = 1) by lia.
  destruct Hc as [-> | ->]; intros H; vm_compute in H; discriminate H.
Qed.

(** The tap of src/TextInput.js, which goes to the nearest boundary, sends
    the same three taps to the columns 0, 2 and 2. *)
Lemma nearest_boundary_examples :
  @TextInput.moveCursorToTouch mockHost 4 0 exAb
  = Ok (exWindow 3 ["ab"%string] 0 0)
  /\ @TextInput.moveCursorToTouch mockHost 16 0 exAb
     = Ok (exWindow 3 ["ab"%string] 2 0)
  /\ @TextInput.moveCursorToTouch mockHost 25 0 exAb
     = Ok (exWindow 3 ["ab"%string] 2 0).
Proof. repeat split. Qed.

(** ** Keys handled outside the reconciler *)

Ltac by_cases_of f :=
  unfold f;
  repeat match goal with
         | |- context [if ?b then _ else _] => destruct b
         | |- context [match ?o with Some _ => _ | None => _ end] =>
           destruct o
         end;
  split; reflexivity.

(** The caret moves, backspace and enter leave the input element and the
    last observed string alone. *)
Lemma moveCursorLeft_input (w : Window) :
  _inputValue (windowOf (moveCursorLeft w)) = _inputValue w
  /\ _lastInputValue (windowOf (moveCursorLeft w)) = _lastInputValue w.
Proof. by_cases_of moveCursorLeft. Qed.

Lemma moveCursorRight_input (w : Window) :
  _inputValue (windowOf (moveCursorRight w)) = _inputValue w
  /\ _lastInputValue (windowOf (moveCursorRight w)) = _lastInputValue w.
Proof. by_cases_of moveCursorRight. Qed.

Lemma moveCursorUp_input (w : Window) :
  _inputValue (windowOf (moveCursorUp w)) = _inputValue w
  /\ _lastInputValue (windowOf (moveCursorUp w)) = _lastInputValue w.
Proof. by_cases_of moveCursorUp. Qed.

Lemma moveCursorDown_input (w : Window) :
  _inputValue (windowOf (moveCursorDown w)) = _inputValue w
  /\ _lastInputValue (windowOf (moveCursorDown w)) = _lastInputValue w.
Proof. by_cases_of moveCursorDown. Qed.

Lemma processBackspace_input (w : Window) :
  _inputValue (windowOf (processBackspace w)) = _inputValue w
  /\ _lastInputValue (windowOf (processBackspace w)) = _lastInputValue w.
Proof. by_cases_of processBackspace. Qed.

Lemma processNewLine_input (w : Window) :
  _inputValue (windowOf (processNewLine w)) = _inputValue w
  /\ _lastInputValue (windowOf (processNewLine w)) = _lastInputValue w.
Proof. by_cases_of processNewLine. Qed.

(** A pass over an element whose value is the last observed string
    changes nothing. *)
Lemma processInputDifference_in_sync (host : WindowBase) (w : Window) :
  _lastInputValue w = _inputValue w ->
  processInputDifference w = Ok w.
Proof.
  intros E. unfold processInputDifference. rewrite E.
  rewrite Z.ltb_irrefl. simpl. destruct w; simpl in *. subst. reflexivity.
Qed.

(** C5, as the code has it.  On a valid window each arrow key and the
    enter key apply their edit and then set the last observed string to
    the empty string and clear the input element; the backspace key
    applies its edit, leaves the input element as it is and sets the last
    observed string to the element's value, so that a following pass finds
    nothing to reconcile until the element changes. *)
Theorem C5_key_paths_and_the_baseline
        (host : WindowBase) (w : Window) (key : Key) :
  valid w ->
  exists w',
    _boundHandleKeyDown key w = Ok w'
    /\ valid w'
    /\ match key with
       | Backspace =>
         windowOf (processBackspace w)
         = setLastInputValue (_lastInputValue w) w'
         /\ _inputValue w' = _inputValue w
         /\ _lastInputValue w' = _inputValue w
         /\ processInputDifference w' = Ok w'
       | OtherKey => w' = w
       | ArrowLeft | ArrowRight | ArrowUp | ArrowDown | Enter =>
         _lastInputValue w' = ""%string /\ _inputValue w' = ""%string
       end.
Proof.
  intros V.
  assert (K : forall w1, valid w1 ->
            valid (setInputValue "" (setLastInputValue "" w1))).
  { intros w1 V1. exact V1. }
  destruct key; simpl.
  - destruct (moveCursorLeft_valid w V) as (w1 & -> & V1).
    eexists. split; [reflexivity|]. split; [apply K, V1|]. split; reflexivity.
  - destruct (moveCursorRight_valid w V) as (w1 & -> & V1).
    eexists. split; [reflexivity|]. split; [apply K, V1|]. split; reflexivity.
  - destruct (moveCursorUp_valid w V) as (w1 & -> & V1).
    eexists. split; [reflexivity|]. split; [apply K, V1|]. split; reflexivity.
  - destruct (moveCursorDown_valid w V) as (w1 & -> & V1).
    eexists. split; [reflexivity|]. split; [apply K, V1|]. split; reflexivity.
  - destruct (processBackspace_input w) as (Ei & El).
    destruct (processBackspace_valid w V) as (w1 & E1 & V1).
    rewrite E1 in *. simpl in Ei, El |- *.
    eexists. split; [reflexivity|]. split; [exact V1|].
    split; [|split; [exact Ei|split; [exact Ei|]]].
    + destruct w1; simpl in *. subst. reflexivity.
    + apply processInputDifference_in_sync. reflexivity.
  - destruct (processNewLine_valid w V) as (w1 & -> & V1).
    eexists. split; [reflexivity|]. split; [apply K, V1|]. split; reflexivity.
  - exists w. split; [reflexivity|]. split; [exact V | reflexivity].
Qed.

Lemma exTyped_valid : valid exTyped.
Proof.
  unfold valid, numLines, currentLine. simpl.
  split; [lia|]. split; [lia|].
  exists "ab"%string. split; [reflexivity|]. unfold JS.len. simpl. lia.
Defined.

Lemma C5_witness :
  valid exTyped
  /\ exists w',
      _boundHandleKeyDown Enter exTyped = Ok w'
      /\ valid w'
      /\ _lastInputValue w' = ""%string /\ _inputValue w' = ""%string.
Proof.
  split; [exact exTyped_valid|].
  exact (C5_key_paths_and_the_baseline mockHost exTyped Enter exTyped_valid).
Defined.

(** C5 as the specification words it fails for the backspace key: after
    "ab" was typed, the key removes one character from the buffer, and
    both the last observed string and the input element still hold "ab". *)
Lemma C5_counterexample :
  _boundHandleKeyDown Backspace exTyped
  = Ok (mkWindow 3 ["a"%string] 1 0 false "ab"%string "ab"%string)
  /\ _lastInputValue (windowOf (_boundHandleKeyDown Backspace exTyped))
     <> ""%string
  /\ _inputValue (windowOf (_boundHandleKeyDown Backspace exTyped))
     <> ""%string.
Proof.
  split; [reflexivity|]. split; discriminate.
Qed.

(** ** Wrapping under a fixed-width font *)

Lemma fixedWidth_le (cw : Q) (a b : string) :
  (0 < cw)%Q -> JS.len a <= JS.len b ->
  (fixedWidth cw a <= fixedWidth cw b)%Q.
Proof.
  intros Hc Hl. unfold fixedWidth.
  apply Qmult_le_l; [exact Hc|]. rewrite <- Zle_Qle. exact Hl.
Qed.

Lemma fixedWidth_one_more (cw : Q) (a b : string) :
  JS.len b = JS.len a + 1 ->
  (fixedWidth cw b == fixedWidth cw a + cw)%Q.
Proof.
  intros Hl. unfold fixedWidth. rewrite Hl, inject_Z_plus. ring.
Qed.

Lemma processedCharOf_plain (a : ascii) :
  a <> backslash ->
  processedCharOf (String a "") = String a ""%string.
Proof.
  intros Ha. unfold processedCharOf.
  destruct (String.eqb_spec (String a "") "\") as [E|_]; [|reflexivity].
  exfalso. apply Ha. injection E as ->. reflexivity.
Qed.

(** C7, as the code has it.  Under a fixed-width font, with the caret's
    line exactly at capacity, the buffer below [_maxLines], the caret not
    in column 0 and a character other than the backslash, [processChar]
    replaces the line by two lines whose concatenation is the line with
    the character inserted at the caret (the line followed by the
    character when the caret is at its end); the caret goes behind the
    character on the new line. *)
Theorem C7_wrap_at_capacity
        (host : WindowBase) (cw : Q) (w : Window)
        (pre post : list string) (line : string) (a : ascii) :
  (forall s, textWidth s = fixedWidth cw s) ->
  (0 < cw)%Q ->
  _lines w = (pre ++ line :: post)%list ->
  Z.of_nat (List.length pre) = _cursorY w ->
  1 <= _cursorX w <= JS.len line ->
  a <> backslash ->
  (textWidth line <= maxWidth)%Q ->
  (maxWidth < textWidth line + cw)%Q ->
  numLines w < _maxLines w ->
  exists w' l1 l2,
    processChar (String a "") w = Ok w'
    /\ _lines w' = (pre ++ l1 :: l2 :: post)%list
    /\ (l1 ++ l2)%string
       = (JS.slice line 0 (_cursorX w) ++ String a ""
            ++ JS.sliceFrom line (_cursorX w))%string
    /\ (JS.slice line 0 (_cursorX w) ++ JS.sliceFrom line (_cursorX w))%string
       = line
    /\ (_cursorX w = JS.len line -> (l1 ++ l2)%string = (line ++ String a "")%string)
    /\ _cursorY w' = _cursorY w + 1
    /\ _cursorX w' = 1.
Proof.
  intros Hfw Hc El Ey Hx Ha Hfit Hcap Hm.
  set (char := String a ""%string).
  assert (Ec : currentLine w = Some line).
  { unfold currentLine. rewrite El, <- Ey. apply JSFacts.index_at_cut. }
  assert (Ep : processedCharOf char = char)
    by (apply processedCharOf_plain; exact Ha).
  destruct (JSFacts.slice_sliceFrom line (_cursorX w)) as (Sj & L1 & L2);
    [lia|].
  assert (F : (maxWidth < textWidth (potentialLineOf line char w))%Q).
  { rewrite Hfw in Hcap |- *.
    rewrite (fixedWidth_one_more cw line); [exact Hcap|].
    unfold potentialLineOf. rewrite Ep, !JSFacts.len_append, L1, L2.
    change (JS.len char) with 1. lia. }
  assert (G : (textWidth (processedCharOf char
                            ++ JS.sliceFrom line (_cursorX w))
               <= maxWidth)%Q).
  { apply (Qle_trans _ (textWidth line)); [|exact Hfit].
    rewrite !Hfw. apply fixedWidth_le; [exact Hc|].
    rewrite Ep, JSFacts.len_append, L2. change (JS.len char) with 1. lia. }
  destruct (processChar_wraps_once char w line Ec F Hm G) as (E1 & _).
  destruct (breakLine_cut w line pre post El Ey) as (Lb & Yb & Xb & _).
  destruct (JSFacts.cut_shift pre
              (JS.sliceFrom line (_cursorX w) :: post)
              (JS.slice line 0 (_cursorX w))) as (Sh & Shl).
  rewrite Sh in Lb.
  destruct (insertAtCaret_cut (breakLine line w)
              (JS.sliceFrom line (_cursorX w)) char _ _ Lb)
    as (Li & Xi & Yi); [rewrite Shl, Yb; lia|].
  assert (Pb : potentialLineOf (JS.sliceFrom line (_cursorX w)) char
                               (breakLine line w)
               = (char ++ JS.sliceFrom line (_cursorX w))%string).
  { unfold potentialLineOf.
    rewrite Xb, Ep, JSFacts.slice_0_0, JSFacts.sliceFrom_0. reflexivity. }
  rewrite Pb, <- app_assoc in Li. simpl in Li.
  exists (insertAtCaret (JS.sliceFrom line (_cursorX w)) char
                        (breakLine line w)),
         (JS.slice line 0 (_cursorX w)),
         (char ++ JS.sliceFrom line (_cursorX w))%string.
  split; [exact E1|]. split; [exact Li|]. split; [reflexivity|].
  split; [exact Sj|]. split; [|split].
  - intros Ee. rewrite Ee, JSFacts.slice_whole, JSFacts.sliceFrom_end.
    reflexivity.
  - rewrite Yi. exact Yb.
  - rewrite Xi, Xb, Ep. reflexivity.
Qed.

Lemma C7_witness :
  (forall s, @textWidth mockHost s = fixedWidth 10 s)
  /\ (0 < 10)%Q
  /\ _lines exCapacityEnd = ([] ++ "abcde"%string :: [])%list
  /\ 1 <= _cursorX exCapacityEnd <= JS.len "abcde"
  /\ "f"%char <> backslash
  /\ (@textWidth mockHost "abcde" <= @maxWidth mockHost)%Q
  /\ (@maxWidth mockHost < @textWidth mockHost "abcde" + 10)%Q
  /\ numLines exCapacityEnd < _maxLines exCapacityEnd
  /\ exists w' l1 l2,
      @processChar mockHost "f" exCapacityEnd = Ok w'
      /\ _lines w' = ([] ++ l1 :: l2 :: [])%list
      /\ (l1 ++ l2)%string
         = (JS.slice "abcde" 0 (_cursorX exCapacityEnd) ++ "f"
              ++ JS.sliceFrom "abcde" (_cursorX exCapacityEnd))%string
      /\ (JS.slice "abcde" 0 (_cursorX exCapacityEnd)
            ++ JS.sliceFrom "abcde" (_cursorX exCapacityEnd))%string
         = "abcde"%string
      /\ (_cursorX exCapacityEnd = JS.len "abcde" ->
          (l1 ++ l2)%string = ("abcde" ++ "f")%string)
      /\ _cursorY w' = _cursorY exCapacityEnd + 1
      /\ _cursorX w' = 1.
Proof.
  assert (H1 : forall s, @textWidth mockHost s = fixedWidth 10 s)
    by (intros s; reflexivity).
  assert (H2 : (0 < 10)%Q) by reflexivity.
  assert (H3 : _lines exCapacityEnd = ([] ++ "abcde"%string :: [])%list)
    by reflexivity.
  assert (H4 : 1 <= _cursorX exCapacityEnd <= JS.len "abcde")
    by (vm_compute; split; discriminate).
  assert (H5 : "f"%char <> backslash) by discriminate.
  assert (H6 : (@textWidth mockHost "abcde" <= @maxWidth mockHost)%Q)
    by (vm_compute; discriminate).
  assert (H7 : (@maxWidth mockHost < @textWidth mockHost "abcde" + 10)%Q)
    by reflexivity.
  assert (H8 : numLines exCapacityEnd < _maxLines exCapacityEnd)
    by reflexivity.
  split; [exact H1|]. split; [exact H2|]. split; [exact H3|].
  split; [exact H4|]. split; [exact H5|]. split; [exact H6|].
  split; [exact H7|]. split; [exact H8|].
  exact (C7_wrap_at_capacity mockHost 10 exCapacityEnd [] [] "abcde" "f"%char
           H1 H2 H3 eq_refl H4 H5 H6 H7 H8).
Defined.

(** C7 as the specification words it fails for the backslash: typed at the
    end of a line at capacity it wraps, and the two lines concatenate to
    the line followed by two backslashes, not by the one that was typed. *)
Lemma C7_counterexample :
  (@textWidth mockHost "abcde" <= @maxWidth mockHost)%Q
  /\ (@maxWidth mockHost < @textWidth mockHost "abcde" + 10)%Q
  /\ numLines exCapacityEnd < _maxLines exCapacityEnd
  /\ @processChar mockHost "\" exCapacityEnd
     = Ok (exWindow 3 ["abcde"; "\\"]%string 2 1)
  /\ ("abcde" ++ "\\")%string <> ("abcde" ++ "\")%string.
Proof.
  split; [vm_compute; discriminate|].
  split; [reflexivity|]. split; [reflexivity|]. split; [reflexivity|].
  discriminate.
Qed.

(** ** Typing and reading the text back *)

Lemma escapeText_cons (a : ascii) (s : string) :
  escapeText (String a s)
  = (processedCharOf (String a "") ++ escapeText s)%string.
Proof.
  simpl. unfold processedCharOf.
  destruct (Ascii.eqb_spec a backslash) as [->|Hne].
  - reflexivity.
  - destruct (String.eqb_spec (String a "") "\") as [E|_]; [|reflexivity].
    exfalso. apply Hne. injection E as ->. reflexivity.
Qed.

Lemma escapeText_noBackslash (s : string) :
  noBackslash s -> escapeText s = s.
Proof.
  induction s as [|a s IH]; simpl; [reflexivity|].
  intros (Ha & Hs). destruct (Ascii.eqb_spec a backslash) as [->|_].
  - contradiction.
  - now rewrite IH.
Qed.

(** Typing at the end of the only line, every character fitting. *)
Lemma typing_appends (host : WindowBase) (T : string) :
  forall (w : Window) (L : string),
    _lines w = [L] -> _cursorY w = 0 -> _cursorX w = JS.len L ->
    (forall p a rest,
        T = (p ++ String a rest)%string ->
        (textWidth (L ++ escapeText (p ++ String a "")) <= maxWidth)%Q) ->
    exists w',
      forEach processChar (JS.chars T) w = Ok w'
      /\ _lines w' = [(L ++ escapeText T)%string]
      /\ _cursorY w' = 0
      /\ _cursorX w' = JS.len (L ++ escapeText T).
Proof.
  induction T as [|a T IH]; intros w L El Ey Ex Hfit; simpl forEach.
  - exists w. rewrite JSFacts.append_empty_r. repeat split; assumption.
  - set (char := String a ""%string).
    assert (Ec : currentLine w = Some L)
      by (unfold currentLine; rewrite El, Ey; reflexivity).
    assert (P : potentialLineOf L char w
                = (L ++ processedCharOf char)%string).
    { unfold potentialLineOf.
      rewrite Ex, JSFacts.slice_whole, JSFacts.sliceFrom_end.
      rewrite JSFacts.append_empty_r. reflexivity. }
    destruct (processChar_fits char w L Ec) as (E1 & _).
    { rewrite P. specialize (Hfit ""%string a T eq_refl).
      cbn [append] in Hfit. rewrite escapeText_cons in Hfit.
      cbn [escapeText] in Hfit. rewrite JSFacts.append_empty_r in Hfit.
      exact Hfit. }
    rewrite E1. simpl andThen.
    destruct (insertAtCaret_cut w L char [] [] El) as (Li & Xi & Yi);
      [rewrite Ey; reflexivity|].
    rewrite P in Li. simpl in Li.
    destruct (IH (insertAtCaret L char w) (L ++ processedCharOf char)%string)
      as (w' & Er & Lr & Yr & Xr).
    + exact Li.
    + rewrite Yi. exact Ey.
    + rewrite Xi, Ex, JSFacts.len_append. reflexivity.
    + intros p b rest ->.
      specialize (Hfit (String a p) b rest eq_refl).
      cbn [append] in Hfit. rewrite escapeText_cons in Hfit.
      rewrite JSFacts.append_assoc. exact Hfit.
    + exists w'. split; [exact Er|].
      rewrite escapeText_cons, <- JSFacts.append_assoc.
      repeat split; assumption.
Qed.

(** C8, as the code has it.  Typing the text [T] one character at a time
    into the fresh editor, no insertion overflowing, leaves one line, and
    [inputText] returns it: it is [T] with every backslash doubled, hence
    [T] itself when [T] has no backslash. *)
Theorem C8_typed_text_round_trip
        (host : WindowBase) (maxLines : Z) (T : string) :
  (forall p a rest,
      T = (p ++ String a rest)%string ->
      (textWidth (escapeText (p ++ String a "")) <= maxWidth)%Q) ->
  exists w',
    forEach processChar (JS.chars T) (initialize maxLines) = Ok w'
    /\ _lines w' = [escapeText T]
    /\ inputText w' = escapeText T
    /\ (noBackslash T -> inputText w' = T).
Proof.
  intros Hfit.
  destruct (typing_appends host T (initialize maxLines) ""%string)
    as (w' & Er & Lr & _ & _); try reflexivity.
  - intros p a rest E. cbn [append]. apply (Hfit p a rest E).
  - cbn [append] in Lr. exists w'. split; [exact Er|]. split; [exact Lr|].
    assert (Ei : inputText w' = escapeText T)
      by (unfold inputText, JS.join; rewrite Lr; reflexivity).
    split; [exact Ei|].
    intros Hn. rewrite Ei. apply escapeText_noBackslash. exact Hn.
Qed.

Lemma C8_witness :
  (forall p a rest,
      "ab"%string = (p ++ String a rest)%string ->
      (@textWidth mockHost (escapeText (p ++ String a "")) <= @maxWidth mockHost)%Q)
  /\ exists w',
      forEach (@processChar mockHost) (JS.chars "ab") (initialize 3) = Ok w'
      /\ _lines w' = [escapeText "ab"]
      /\ inputText w' = escapeText "ab"
      /\ (noBackslash "ab" -> inputText w' = "ab"%string).
Proof.
  assert (H : forall p a rest,
             "ab"%string = (p ++ String a rest)%string ->
             (@textWidth mockHost (escapeText (p ++ String a ""))
              <= @maxWidth mockHost)%Q).
  { intros p a rest E.
    destruct p as [|x [|y [|z p]]]; simpl in E.
    - injection E as <- _. vm_compute. discriminate.
    - injection E as <- <- _. vm_compute. discriminate.
    - injection E as _ _ E. discriminate E.
    - injection E as _ _ E. discriminate E. }
  split; [exact H|].
  exact (C8_typed_text_round_trip mockHost 3 "ab" H).
Defined.

(** C8 as the specification words it fails for a text with a backslash:
    typing the single character backslash, which fits, makes [inputText]
    return two backslashes. *)
Lemma C8_counterexample :
  (@textWidth mockHost (potentialLineOf "" "\" (initialize 3))
   <= @maxWidth mockHost)%Q
  /\ inputText (windowOf (forEach (@processChar mockHost) (JS.chars "\")
                                  (initialize 3)))
     = "\\"%string
  /\ inputText (windowOf (forEach (@processChar mockHost) (JS.chars "\")
                                  (initialize 3)))
     <> "\"%string.
Proof.
  split; [vm_compute; discriminate|]. split; [reflexivity | discriminate].
Qed.

(** ** The reconciliation pass *)







(** * Further properties of the code *)

Ltac example_valid :=
  unfold valid, numLines, currentLine; simpl;
  split; [lia|]; split; [lia|];
  eexists; split; [reflexivity | unfold JS.len; simpl; lia].

Lemma exCapacityInside_valid : valid exCapacityInside.
Proof. example_valid. Defined.

Lemma exSecondLine_valid : valid exSecondLine.
Proof. example_valid. Defined.

Lemma exSecondLineStart_valid : valid exSecondLineStart.
Proof. example_valid. Defined.

Lemma exAb_valid : valid exAb.
Proof. example_valid. Defined.

Lemma andThen_Ok (r : outcome) : (r >>= fun w => Ok w) = r.
Proof. destruct r; reflexivity. Qed.

(** A window is its seven fields. *)
Lemma window_eq (w w' : Window) :
  _maxLines w = _maxLines w' -> _lines w = _lines w' ->
  _cursorX w = _cursorX w' -> _cursorY w = _cursorY w' ->
  _isComposing w = _isComposing w' ->
  _lastInputValue w = _lastInputValue w' ->
  _inputValue w = _inputValue w' ->
  w = w'.
Proof.
  destruct w, w'; simpl; intros; subst; reflexivity.
Qed.

(** The caret's line, cut at the caret. *)
Lemma valid_cut_at_caret (w : Window) :
  valid w ->
  exists pre p q post,
    _lines w = (pre ++ (p ++ q)%string :: post)%list
    /\ Z.of_nat (List.length pre) = _cursorY w
    /\ JS.len p = _cursorX w.
Proof.
  intros (_ & _ & line & E & Hx).
  destruct (currentLine_cut _ _ E) as (pre & post & El & Ey).
  destruct (JSFacts.split_at line (Z.to_nat (_cursorX w)))
    as (p & q & -> & Hp); [unfold JS.len in Hx; lia|].
  exists pre, p, q, post. repeat split; try assumption.
  unfold JS.len. lia.
Qed.

(** ** The line cap *)

Lemma processNewLine_count (w : Window) :
  valid w ->
  exists w',
    processNewLine w = Ok w' /\ valid w'
    /\ _maxLines w' = _maxLines w
    /\ numLines w' = Z.min (numLines w + 1) (_maxLines w).
Proof.
  intros V. pose proof V as (Hn & _ & line & E & _).
  destruct (processNewLine_valid w V) as (w' & E' & V').
  exists w'. split; [exact E'|]. split; [exact V'|].
  unfold processNewLine in E'.
  destruct (Z.leb_spec (_maxLines w) (numLines w)) as [Hge|Hlt].
  - injection E' as <-. split; [reflexivity | lia].
  - rewrite E in E'. injection E' as <-.
    rewrite numLines_breakLine, maxLines_breakLine. split; [reflexivity | lia].
Qed.

(** X1. Pressing Enter [n] times in a valid editor never fails and leaves
    [min (lines + n) maxLines] lines: once the buffer holds [_maxLines]
    lines, further presses add nothing. *)
Theorem X1_enter_stops_at_maxLines (n : nat) (w : Window) :
  valid w ->
  exists w',
    repeatN processNewLine n w = Ok w'
    /\ valid w'
    /\ numLines w' = Z.min (numLines w + Z.of_nat n) (_maxLines w).
Proof.
  revert w; induction n as [|n IH]; intros w V.
  - exists w. split; [reflexivity|]. split; [exact V|].
    destruct V as (Hn & _). lia.
  - destruct (processNewLine_count w V) as (w1 & E1 & V1 & M1 & N1).
    destruct (IH w1 V1) as (w' & E' & V' & N').
    exists w'. cbn [repeatN]. rewrite E1. cbn [andThen].
    split; [exact E'|]. split; [exact V'|]. rewrite N', N1, M1. lia.
Qed.

Lemma X1_witness :
  valid exSecondLine
  /\ exists w',
      repeatN processNewLine 5 exSecondLine = Ok w'
      /\ valid w'
      /\ numLines w'
         = Z.min (numLines exSecondLine + Z.of_nat 5) (_maxLines exSecondLine).
Proof.
  split; [exact exSecondLine_valid|].
  exact (X1_enter_stops_at_maxLines 5 exSecondLine exSecondLine_valid).
Defined.

(** ** Edits that undo each other *)

(** X2. In a valid editor below [_maxLines], Enter followed by Backspace
    gives back the window exactly as it was: buffer, caret and input
    state. *)
Theorem X2_backspace_undoes_enter (w : Window) :
  valid w ->
  numLines w < _maxLines w ->
  exists w1, processNewLine w = Ok w1 /\ processBackspace w1 = Ok w.
Proof.
  intros V Hm.
  destruct (valid_cut_at_caret w V) as (pre & p & q & post & El & Ey & Ex).
  assert (Ec : currentLine w = Some (p ++ q)%string).
  { unfold currentLine. rewrite El, <- Ey. apply JSFacts.index_at_cut. }
  destruct (breakLine_cut w _ pre post El Ey) as (Lb & Yb & Xb & _).
  rewrite <- Ex, JSFacts.slice_prefix, JSFacts.sliceFrom_suffix in Lb.
  exists (breakLine (p ++ q) w). split.
  - unfold processNewLine.
    destruct (Z.leb_spec (_maxLines w) (numLines w)); [lia|].
    rewrite Ec. reflexivity.
  - rewrite (processBackspace_merge _ pre post p q Lb); [| lia | lia].
    f_equal. apply window_eq; cbn [_maxLines _lines _cursorX _cursorY
      _isComposing _lastInputValue _inputValue setCursorX setCursorY setLines];
      try reflexivity.
    + symmetry. exact El.
    + exact Ex.
    + lia.
Qed.

Lemma X2_witness :
  valid exSecondLine
  /\ numLines exSecondLine < _maxLines exSecondLine
  /\ exists w1,
      processNewLine exSecondLine = Ok w1
      /\ processBackspace w1 = Ok exSecondLine.
Proof.
  assert (H : numLines exSecondLine < _maxLines exSecondLine) by reflexivity.
  split; [exact exSecondLine_valid|]. split; [exact H|].
  exact (X2_backspace_undoes_enter exSecondLine exSecondLine_valid H).
Defined.

(** X3. In a valid editor, a character of one code unit that fits the
    width is undone by one Backspace, wherever the caret is: a backslash is
    stored doubled and removed as one unit, any other unit is stored and
    removed alone.  A character of two code units (a surrogate pair, which
    [for ... of] hands over as one string; neither unit is a backslash) is
    stored whole, and one Backspace removes only its second unit: the
    first stays in the line, and it takes a second Backspace to give back
    the window. *)
Theorem X3_backspace_undoes_character
        (host : WindowBase) (w : Window) (char line : string) :
  valid w ->
  currentLine w = Some line ->
  (textWidth (potentialLineOf line char w) <= maxWidth)%Q ->
  exists w1,
    processChar char w = Ok w1
    /\ (forall a, char = String a "" -> processBackspace w1 = Ok w)
    /\ (forall a b,
           char = String a (String b "") ->
           a <> backslash -> b <> backslash ->
           exists w2,
             processBackspace w1 = Ok w2
             /\ currentLine w2
                = Some (JS.slice line 0 (_cursorX w)
                        ++ String a (JS.sliceFrom line (_cursorX w)))%string
             /\ _cursorX w2 = _cursorX w + 1
             /\ w2 <> w
             /\ processBackspace w2 = Ok w).
Proof.
  intros V Ec F.
  destruct (valid_cut_at_caret w V) as (pre & p & q & post & El & Ey & Ex).
  assert (Ec' : currentLine w = Some (p ++ q)%string).
  { unfold currentLine. rewrite El, <- Ey. apply JSFacts.index_at_cut. }
  rewrite Ec' in Ec. injection Ec as <-.
  destruct (processChar_fits char w _ Ec' F) as (E1 & _).
  destruct (insertAtCaret_cut w (p ++ q) char pre post El Ey)
    as (Li & Xi & Yi).
  unfold potentialLineOf in Li.
  rewrite <- Ex, JSFacts.slice_prefix, JSFacts.sliceFrom_suffix in Li.
  exists (insertAtCaret (p ++ q) char w). split; [exact E1|].
  assert (R : forall (w' : Window) (k : Z),
             _maxLines w' = _maxLines w ->
             _cursorY w' = _cursorY w ->
             _isComposing w' = _isComposing w ->
             _lastInputValue w' = _lastInputValue w ->
             _inputValue w' = _inputValue w ->
             _cursorX w' = _cursorX w + k ->
             Ok (setCursorX (_cursorX w' - k)
                   (setLines (pre ++ (p ++ q)%string :: post) w'))
             = Ok w).
  { intros w' k Hm Hy Hc Hl Hi Hx. f_equal. apply window_eq;
      cbn [_maxLines _lines _cursorX _cursorY _isComposing _lastInputValue
           _inputValue setCursorX setCursorY setLines]; try assumption.
    - symmetry. exact El.
    - rewrite Hx. lia. }
  split.
  - intros a ->. set (char := String a ""%string) in *.
    destruct (Ascii.eqb_spec a backslash) as [Ea|Ea].
    + assert (Ep : processedCharOf char = "\\"%string)
        by (unfold char; rewrite Ea; reflexivity).
      rewrite Ep in Li, Xi.
      rewrite (processBackspace_escaped _ pre post p q Li);
        [| rewrite Yi; exact Ey
         | rewrite Xi; change (JS.len "\\") with 2; lia].
      apply R; try reflexivity; first [exact Yi | exact Xi].
    + assert (Ep : processedCharOf char = char)
        by (apply processedCharOf_plain; exact Ea).
      rewrite Ep in Li, Xi.
      change (char ++ q)%string with (String a q) in Li.
      rewrite (processBackspace_single _ pre post p q a Li);
        [| rewrite Yi; exact Ey
         | rewrite Xi; change (JS.len char) with 1; lia
         | intros (H & _); contradiction].
      apply R; try reflexivity; first [exact Yi | exact Xi].
  - intros a b -> Ha Hb. set (char := String a (String b "")) in *.
    assert (Ep : processedCharOf char = char).
    { unfold processedCharOf, char. cbn [String.eqb].
      destruct (Ascii.eqb a "\"); reflexivity. }
    rewrite Ep in Li, Xi. change (JS.len char) with 2 in Xi.
    assert (Li' : _lines (insertAtCaret (p ++ q) char w)
                  = (pre ++ ((p ++ String a "") ++ String b q)%string
                         :: post)%list).
    { rewrite Li, JSFacts.append_assoc. reflexivity. }
    assert (B1 : processBackspace (insertAtCaret (p ++ q) char w)
                 = Ok (setCursorX
                         (_cursorX (insertAtCaret (p ++ q) char w) - 1)
                         (setLines
                            (pre ++ ((p ++ String a "") ++ q)%string :: post)
                            (insertAtCaret (p ++ q) char w)))).
    { apply (processBackspace_single _ pre post (p ++ String a "") q b Li').
      - rewrite Yi. exact Ey.
      - rewrite Xi, JSFacts.len_append. change (JS.len (String a "")) with 1.
        lia.
      - intros (H & _). contradiction. }
    set (w2 := setCursorX (_cursorX (insertAtCaret (p ++ q) char w) - 1)
                 (setLines (pre ++ ((p ++ String a "") ++ q)%string :: post)
                    (insertAtCaret (p ++ q) char w))) in *.
    assert (L2 : _lines w2 = (pre ++ (p ++ String a q)%string :: post)%list).
    { unfold w2. cbn [_lines setCursorX setLines].
      rewrite JSFacts.append_assoc. reflexivity. }
    assert (X2 : _cursorX w2 = _cursorX w + 1).
    { unfold w2. cbn [_cursorX setCursorX]. rewrite Xi. lia. }
    assert (Y2 : _cursorY w2 = _cursorY w).
    { unfold w2. cbn [_cursorY setCursorX setLines]. exact Yi. }
    exists w2. split; [exact B1|]. split; [|split; [exact X2|split]].
    + unfold currentLine. rewrite L2, Y2, <- Ey, <- Ex.
      rewrite JSFacts.slice_prefix, JSFacts.sliceFrom_suffix.
      apply JSFacts.index_at_cut.
    + intros H. rewrite H in X2. lia.
    + rewrite (processBackspace_single _ pre post p q a L2);
        [| rewrite Y2; exact Ey
         | rewrite X2; lia
         | intros (H & _); contradiction].
      apply R; try reflexivity; first [exact Y2 | exact X2].
Qed.

Lemma X3_witness :
  valid exSecondLine
  /\ currentLine exSecondLine = Some "cd"%string
  /\ (@textWidth mockHost (potentialLineOf "cd" "\" exSecondLine)
      <= @maxWidth mockHost)%Q
  /\ exists w1,
      @processChar mockHost "\" exSecondLine = Ok w1
      /\ (forall a, "\"%string = String a "" ->
                    processBackspace w1 = Ok exSecondLine)
      /\ (forall a b,
             "\"%string = String a (String b "") ->
             a <> backslash -> b <> backslash ->
             exists w2,
               processBackspace w1 = Ok w2
               /\ currentLine w2
                  = Some (JS.slice "cd" 0 (_cursorX exSecondLine)
                          ++ String a
                               (JS.sliceFrom "cd" (_cursorX exSecondLine)))
                         %string
               /\ _cursorX w2 = _cursorX exSecondLine + 1
               /\ w2 <> exSecondLine
               /\ processBackspace w2 = Ok exSecondLine).
Proof.
  assert (E : currentLine exSecondLine = Some "cd"%string) by reflexivity.
  assert (F : (@textWidth mockHost (potentialLineOf "cd" "\" exSecondLine)
               <= @maxWidth mockHost)%Q) by (vm_compute; discriminate).
  split; [exact exSecondLine_valid|]. split; [exact E|]. split; [exact F|].
  exact (X3_backspace_undoes_character mockHost exSecondLine "\" "cd"
           exSecondLine_valid E F).
Defined.

(** X4. ArrowLeft and ArrowRight undo each other: in a valid editor whose
    caret is not at the very start of the buffer, a move left followed by
    a move right gives back the window, and when the caret is not at the
    very end, a move right followed by a move left does, line boundaries
    included. *)
Theorem X4_left_and_right_undo_each_other (w : Window) (line : string) :
  valid w ->
  currentLine w = Some line ->
  (0 < _cursorX w \/ 0 < _cursorY w ->
   exists w1, moveCursorLeft w = Ok w1 /\ moveCursorRight w1 = Ok w)
  /\ (_cursorX w < JS.len line \/ _cursorY w < numLines w - 1 ->
      exists w1, moveCursorRight w = Ok w1 /\ moveCursorLeft w1 = Ok w).
Proof.
  intros V Ec. pose proof V as (Hn & Hy & line' & Ec' & Hx).
  rewrite Ec in Ec'. injection Ec' as <-.
  split; intros Hmove.
  - unfold moveCursorLeft.
    destruct (Z.ltb_spec 0 (_cursorX w)) as [Hx0|Hx0].
    + eexists. split; [reflexivity|]. unfold moveCursorRight.
      change (currentLine (setCursorX (_cursorX w - 1) w))
        with (currentLine w).
      rewrite Ec. cbn [_cursorX setCursorX].
      destruct (Z.ltb_spec (_cursorX w - 1) (JS.len line)); [|lia].
      f_equal. apply window_eq; cbn; try reflexivity. lia.
    + destruct (Z.ltb_spec 0 (_cursorY w)) as [Hy0|Hy0]; [|lia].
      destruct (valid_row w (_cursorY w - 1) V) as (l & El); [lia|].
      rewrite El. eexists. split; [reflexivity|]. unfold moveCursorRight.
      change (currentLine (setCursorX (JS.len l) (setCursorY (_cursorY w - 1) w)))
        with (currentLine (setCursorY (_cursorY w - 1) w)).
      rewrite El. cbn [_cursorX _cursorY setCursorX setCursorY].
      rewrite Z.ltb_irrefl.
      change (numLines (setCursorX (JS.len l) (setCursorY (_cursorY w - 1) w)))
        with (numLines w).
      destruct (Z.ltb_spec (_cursorY w - 1) (numLines w - 1)); [|lia].
      f_equal. apply window_eq; cbn; try reflexivity; lia.
  - unfold moveCursorRight. rewrite Ec.
    destruct (Z.ltb_spec (_cursorX w) (JS.len line)) as [Hx0|Hx0].
    + eexists. split; [reflexivity|]. unfold moveCursorLeft.
      cbn [_cursorX setCursorX].
      destruct (Z.ltb_spec 0 (_cursorX w + 1)); [|lia].
      f_equal. apply window_eq; cbn; try reflexivity. lia.
    + destruct (Z.ltb_spec (_cursorY w) (numLines w - 1)) as [Hy0|Hy0];
        [|lia].
      eexists. split; [reflexivity|]. unfold moveCursorLeft.
      cbn [_cursorX _cursorY setCursorX setCursorY].
      rewrite Z.ltb_irrefl.
      destruct (Z.ltb_spec 0 (_cursorY w + 1)); [|lia].
      replace (_cursorY w + 1 - 1) with (_cursorY w) by lia.
      change (currentLine (setCursorY (_cursorY w)
                (setCursorX 0 (setCursorY (_cursorY w + 1) w))))
        with (currentLine w).
      rewrite Ec. f_equal. apply window_eq; cbn; try reflexivity. lia.
Qed.

Lemma X4_witness :
  valid exSecondLineStart
  /\ currentLine exSecondLineStart = Some "cd"%string
  /\ (exists w1, moveCursorLeft exSecondLineStart = Ok w1
                 /\ moveCursorRight w1 = Ok exSecondLineStart)
  /\ (exists w1, moveCursorRight exSecondLineStart = Ok w1
                 /\ moveCursorLeft w1 = Ok exSecondLineStart).
Proof.
  assert (E : currentLine exSecondLineStart = Some "cd"%string)
    by reflexivity.
  split; [exact exSecondLineStart_valid|]. split; [exact E|].
  pose proof (X4_left_and_right_undo_each_other exSecondLineStart "cd"
                exSecondLineStart_valid E) as (HL & HR).
  split.
  - apply HL. right. reflexivity.
  - apply HR. left. reflexivity.
Defined.

(** ** The text is never lost *)

Lemma concat_empty_cons (x : string) (xs : list string) :
  String.concat "" (x :: xs) = (x ++ String.concat "" xs)%string.
Proof.
  destruct xs; simpl; [now rewrite JSFacts.append_empty_r | reflexivity].
Qed.

Lemma concat_empty_app (xs ys : list string) :
  String.concat "" (xs ++ ys)
  = (String.concat "" xs ++ String.concat "" ys)%string.
Proof.
  induction xs as [|x xs IH]; [reflexivity|].
  rewrite <- app_comm_cons, !concat_empty_cons, IH, JSFacts.append_assoc.
  reflexivity.
Qed.

Lemma flatText_cut (w : Window) (pre post : list string) (p q : string) :
  _lines w = (pre ++ (p ++ q)%string :: post)%list ->
  flatText w
  = ((String.concat "" pre ++ p) ++ (q ++ String.concat "" post))%string.
Proof.
  intros El. unfold flatText.
  rewrite El, concat_empty_app, concat_empty_cons, !JSFacts.append_assoc.
  reflexivity.
Qed.

(** X5. [processChar] never loses, duplicates or reorders text, however
    many times it breaks the line: the text in front of the caret gains
    the stored form of the character at its end, or nothing when the
    character is dropped, and the text behind the caret stays as it was.
    [before] and [behind] are the text of the whole buffer in front of and
    behind the caret. *)
Theorem X5_processChar_keeps_the_text
        (host : WindowBase) (char : string) (w : Window)
        (pre post : list string) (p q : string) :
  _lines w = (pre ++ (p ++ q)%string :: post)%list ->
  Z.of_nat (List.length pre) = _cursorY w ->
  JS.len p = _cursorX w ->
  let before := (String.concat "" pre ++ p)%string in
  let behind := (q ++ String.concat "" post)%string in
  exists w' pre' post' p' q' stored,
    processChar char w = Ok w'
    /\ (stored = processedCharOf char \/ stored = ""%string)
    /\ _lines w' = (pre' ++ (p' ++ q')%string :: post')%list
    /\ Z.of_nat (List.length pre') = _cursorY w'
    /\ JS.len p' = _cursorX w'
    /\ (String.concat "" pre' ++ p')%string = (before ++ stored)%string
    /\ (q' ++ String.concat "" post')%string = behind
    /\ flatText w' = (before ++ stored ++ behind)%string.
Proof.
  revert pre post p q. pattern w. apply room_ind. clear w.
  intros w IH pre post p q El Ey Ex before behind.
  assert (Ec : currentLine w = Some (p ++ q)%string).
  { unfold currentLine. rewrite El, <- Ey. apply JSFacts.index_at_cut. }
  assert (Sp : JS.slice (p ++ q) 0 (_cursorX w) = p)
    by (rewrite <- Ex; apply JSFacts.slice_prefix).
  assert (Sq : JS.sliceFrom (p ++ q) (_cursorX w) = q)
    by (rewrite <- Ex; apply JSFacts.sliceFrom_suffix).
  rewrite processChar_eq, Ec.
  destruct (JS.gtQ _ _).
  - destruct (Z.ltb_spec (numLines w) (_maxLines w)) as [Hlt|Hge].
    + destruct (breakLine_cut w _ pre post El Ey) as (Lb & Yb & Xb & _).
      rewrite Sp, Sq in Lb.
      destruct (JSFacts.cut_shift pre (q :: post) p) as (Sh & Shl).
      rewrite Sh in Lb.
      destruct (IH (breakLine (p ++ q) w)) with
        (pre := (pre ++ [p])%list) (post := post) (p := ""%string) (q := q)
        as (w' & pre' & post' & p' & q' & stored
            & E' & Hs & L' & Y' & X' & B' & A' & _).
      * rewrite numLines_breakLine, maxLines_breakLine. lia.
      * rewrite numLines_breakLine, maxLines_breakLine. lia.
      * exact Lb.
      * rewrite Shl, Yb. lia.
      * rewrite Xb. reflexivity.
      * exists w', pre', post', p', q', stored.
        assert (B : (String.concat "" pre' ++ p')%string
                    = (before ++ stored)%string).
        { rewrite B', concat_empty_app. cbn [String.concat].
          rewrite JSFacts.append_empty_r. reflexivity. }
        split; [exact E'|]. split; [exact Hs|]. split; [exact L'|].
        split; [exact Y'|]. split; [exact X'|]. split; [exact B|].
        split; [exact A'|].
        rewrite (flatText_cut w' pre' post' p' q' L'), B, A'.
        apply JSFacts.append_assoc.
    + exists w, pre, post, p, q, ""%string.
      split; [reflexivity|]. split; [right; reflexivity|].
      split; [exact El|]. split; [exact Ey|]. split; [exact Ex|].
      split; [now rewrite JSFacts.append_empty_r|]. split; [reflexivity|].
      rewrite (flatText_cut w pre post p q El). reflexivity.
  - destruct (insertAtCaret_cut w (p ++ q) char pre post El Ey)
      as (Li & Xi & Yi).
    unfold potentialLineOf in Li. rewrite Sp, Sq in Li.
    rewrite <- JSFacts.append_assoc in Li.
    exists (insertAtCaret (p ++ q) char w), pre, post,
           (p ++ processedCharOf char)%string, q, (processedCharOf char).
    split; [reflexivity|]. split; [left; reflexivity|].
    split; [exact Li|]. split; [rewrite Yi; exact Ey|].
    split; [rewrite Xi, JSFacts.len_append; lia|].
    assert (B : (String.concat "" pre ++ p ++ processedCharOf char)%string
                = (before ++ processedCharOf char)%string)
      by (unfold before; now rewrite JSFacts.append_assoc).
    split; [exact B|]. split; [reflexivity|].
    rewrite (flatText_cut _ pre post _ q Li), B.
    apply JSFacts.append_assoc.
Qed.

Lemma X5_witness :
  _lines exCapacityInside = ([] ++ ("ab" ++ "cde")%string :: [])%list
  /\ Z.of_nat (List.length (@nil string)) = _cursorY exCapacityInside
  /\ JS.len "ab" = _cursorX exCapacityInside
  /\ exists w' pre' post' p' q' stored,
      @processChar mockHost "x" exCapacityInside = Ok w'
      /\ (stored = processedCharOf "x" \/ stored = ""%string)
      /\ _lines w' = (pre' ++ (p' ++ q')%string :: post')%list
      /\ Z.of_nat (List.length pre') = _cursorY w'
      /\ JS.len p' = _cursorX w'
      /\ (String.concat "" pre' ++ p')%string
         = ((String.concat "" [] ++ "ab") ++ stored)%string
      /\ (q' ++ String.concat "" post')%string
         = ("cde" ++ String.concat "" [])%string
      /\ flatText w'
         = ((String.concat "" [] ++ "ab") ++ stored
              ++ ("cde" ++ String.concat "" []))%string.
Proof.
  split; [reflexivity|]. split; [reflexivity|]. split; [reflexivity|].
  exact (X5_processChar_keeps_the_text mockHost "x" exCapacityInside
           [] [] "ab" "cde" eq_refl eq_refl eq_refl).
Defined.

Lemma ends_with_backslash_dec (a : string) :
  (exists a', a = (a' ++ "\")%string)
  \/ ~ (exists a', a = (a' ++ "\")%string).
Proof.
  destruct a as [|x a0].
  - right. intros (a' & E). destruct a'; discriminate E.
  - destruct (JSFacts.split_at (String x a0)
                (String.length (String x a0) - 1))
      as (a' & d & E & La); [lia|].
    assert (Ld : String.length d = 1%nat).
    { pose proof (f_equal String.length E) as L.
      rewrite JSFacts.length_append in L.
      cbn [String.length] in L, La. lia. }
    destruct d as [|c [|? ?]]; try discriminate.
    rewrite E. destruct (Ascii.eqb_spec c backslash) as [->|Hne].
    + left. exists a'. reflexivity.
    + right. intros (a'' & E').
      assert (L : String.length a' = String.length a'').
      { pose proof (f_equal String.length E') as L.
        rewrite !JSFacts.length_append in L. simpl in L. lia. }
      assert (E2 : substring (String.length a') 1 (a' ++ String c "")
                   = substring (String.length a'') 1 (a'' ++ "\")).
      { rewrite E', L. reflexivity. }
      rewrite !JSFacts.substring_skip in E2. simpl in E2.
      injection E2 as ->. apply Hne. reflexivity.
Qed.

(** X6. [processBackspace] only removes text that stands immediately in
    front of the caret, at most two code units of it, and nothing when the
    caret is in column 0, where it just joins the line to the one before:
    the text in front of the caret loses [removed] at its end and the text
    behind the caret stays as it was. *)
Theorem X6_processBackspace_removes_in_front_of_the_caret
        (w : Window) (pre post : list string) (p q : string) :
  _lines w = (pre ++ (p ++ q)%string :: post)%list ->
  Z.of_nat (List.length pre) = _cursorY w ->
  JS.len p = _cursorX w ->
  let before := (String.concat "" pre ++ p)%string in
  let behind := (q ++ String.concat "" post)%string in
  exists w' pre' post' p' removed,
    processBackspace w = Ok w'
    /\ before = (String.concat "" pre' ++ p' ++ removed)%string
    /\ JS.len removed <= 2
    /\ (_cursorX w = 0 -> removed = ""%string)
    /\ (0 < _cursorX w -> 1 <= JS.len removed)
    /\ _lines w' = (pre' ++ (p' ++ q)%string :: post')%list
    /\ Z.of_nat (List.length pre') = _cursorY w'
    /\ JS.len p' = _cursorX w'
    /\ flatText w' = ((String.concat "" pre' ++ p') ++ behind)%string.
Proof.
  intros El Ey Ex before behind.
  pose proof (JSFacts.len_nonneg p) as Hp.
  destruct (Z.ltb_spec 0 (_cursorX w)) as [Hx0|Hx0].
  - (* a character in front of the caret *)
    destruct (JSFacts.split_at p (Z.to_nat (JS.len p - 1)))
      as (a & d & Ep & La); [unfold JS.len in *; lia|].
    assert (Ld : String.length d = 1%nat).
    { pose proof (f_equal String.length Ep) as L.
      rewrite JSFacts.length_append in L. unfold JS.len in *. lia. }
    destruct d as [|c [|? ?]]; try discriminate.
    assert (Lp : JS.len p = JS.len a + 1).
    { rewrite Ep, JSFacts.len_append. reflexivity. }
    assert (Escaped : (c = backslash /\ exists a', a = (a' ++ "\")%string)
                      \/ ~ (c = backslash
                            /\ exists a', a = (a' ++ "\")%string)).
    { destruct (Ascii.eqb_spec c backslash) as [Hc|Hc];
        [|right; intros (H & _); contradiction].
      destruct (ends_with_backslash_dec a) as [Ha|Ha].
      - left. split; assumption.
      - right. intros (_ & H). contradiction. }
    destruct Escaped as [(-> & a' & ->)|Hne].
    + assert (El' : _lines w
                    = (pre ++ (a' ++ "\\" ++ q)%string :: post)%list).
      { rewrite El, Ep, !JSFacts.append_assoc. reflexivity. }
      assert (La' : JS.len a' + 2 = _cursorX w).
      { rewrite <- Ex, Lp, JSFacts.len_append.
        change (JS.len "\") with 1. lia. }
      rewrite (processBackspace_escaped w pre post a' q El' Ey) by lia.
      exists (setCursorX (_cursorX w - 2)
                (setLines (pre ++ (a' ++ q)%string :: post) w)),
             pre, post, a', "\\"%string.
      split; [reflexivity|].
      split; [unfold before; rewrite Ep, !JSFacts.append_assoc;
              reflexivity|].
      split; [change (JS.len "\\") with 2; lia|].
      split; [intros; lia|].
      split; [intros; change (JS.len "\\") with 2; lia|].
      split; [reflexivity|]. split; [exact Ey|].
      split; [cbn [_cursorX setCursorX]; lia|].
      apply flatText_cut. reflexivity.
    + assert (El' : _lines w
                    = (pre ++ (a ++ String c q)%string :: post)%list).
      { rewrite El, Ep, JSFacts.append_assoc. reflexivity. }
      rewrite (processBackspace_single w pre post a q c El' Ey)
        by (try assumption; lia).
      exists (setCursorX (_cursorX w - 1)
                (setLines (pre ++ (a ++ q)%string :: post) w)),
             pre, post, a, (String c "").
      split; [reflexivity|].
      split; [unfold before; rewrite Ep; reflexivity|].
      split; [change (JS.len (String c "")) with 1; lia|].
      split; [intros; lia|].
      split; [intros; change (JS.len (String c "")) with 1; lia|].
      split; [reflexivity|]. split; [exact Ey|].
      split; [cbn [_cursorX setCursorX]; lia|].
      apply flatText_cut. reflexivity.
  - (* column 0 *)
    assert (Ep : p = ""%string)
      by (destruct p; [reflexivity | unfold JS.len in *; simpl in *; lia]).
    subst p. cbn [append] in El.
    destruct (Z.ltb_spec 0 (_cursorY w)) as [Hy0|Hy0].
    + destruct (exists_last (l := pre)) as (pre0 & prev & ->).
      { intros ->. simpl in Ey. lia. }
      rewrite length_app in Ey. simpl in Ey.
      rewrite <- app_assoc in El. simpl in El.
      rewrite (processBackspace_merge w pre0 post prev q El) by lia.
      exists (setCursorY (_cursorY w - 1)
                (setLines (pre0 ++ (prev ++ q)%string :: post)
                   (setCursorX (JS.len prev) w))),
             pre0, post, prev, ""%string.
      split; [reflexivity|].
      split; [unfold before; rewrite concat_empty_app; cbn [String.concat];
              rewrite !JSFacts.append_empty_r; reflexivity|].
      split; [change (JS.len "") with 0; lia|].
      split; [reflexivity|]. split; [intros; lia|].
      split; [reflexivity|].
      split; [cbn [_cursorY setCursorY]; lia|].
      split; [reflexivity|].
      apply flatText_cut. reflexivity.
    + rewrite (processBackspace_origin w) by lia.
      exists w, pre, post, ""%string, ""%string.
      split; [reflexivity|]. split; [reflexivity|].
      split; [change (JS.len "") with 0; lia|].
      split; [reflexivity|]. split; [intros; lia|].
      split; [exact El|]. split; [exact Ey|]. split; [exact Ex|].
      apply (flatText_cut w pre post "" q). exact El.
Qed.

Lemma X6_witness :
  _lines exSecondLine = (["ab"%string] ++ ("c" ++ "d")%string :: [])%list
  /\ Z.of_nat (List.length ["ab"%string]) = _cursorY exSecondLine
  /\ JS.len "c" = _cursorX exSecondLine
  /\ exists w' pre' post' p' removed,
      processBackspace exSecondLine = Ok w'
      /\ (String.concat "" ["ab"%string] ++ "c")%string
         = (String.concat "" pre' ++ p' ++ removed)%string
      /\ JS.len removed <= 2
      /\ (_cursorX exSecondLine = 0 -> removed = ""%string)
      /\ (0 < _cursorX exSecondLine -> 1 <= JS.len removed)
      /\ _lines w' = (pre' ++ (p' ++ "d")%string :: post')%list
      /\ Z.of_nat (List.length pre') = _cursorY w'
      /\ JS.len p' = _cursorX w'
      /\ flatText w'
         = ((String.concat "" pre' ++ p')
              ++ ("d" ++ String.concat "" []))%string.
Proof.
  split; [reflexivity|]. split; [reflexivity|]. split; [reflexivity|].
  exact (X6_processBackspace_removes_in_front_of_the_caret exSecondLine
           ["ab"%string] [] "c" "d" eq_refl eq_refl eq_refl).
Defined.

(** ** Pointer taps *)

(** X7. A tap below the last line of the buffer is ignored:
    [moveCursorToTouch] returns the window unchanged; the row is not
    clamped to the last line. *)
Theorem X7_tap_below_the_last_line_is_ignored
        (host : WindowBase) (w : Window) (x y : Q) :
  (0 < lineHeight)%Q ->
  (inject_Z (numLines w) * lineHeight <= y)%Q ->
  moveCursorToTouch x y w = Ok w.
Proof.
  intros Hl Hy. unfold moveCursorToTouch.
  assert (H : numLines w <= Qfloor (y / lineHeight)).
  { rewrite <- (Qfloor_Z (numLines w)). apply Qfloor_resp_le.
    apply Qle_shift_div_l; assumption. }
  destruct (Z.ltb_spec (Qfloor (y / lineHeight)) (numLines w)); [lia|].
  reflexivity.
Qed.

Lemma X7_witness :
  (0 < @lineHeight mockHost)%Q
  /\ (inject_Z (numLines exAb) * @lineHeight mockHost <= 40)%Q
  /\ @moveCursorToTouch mockHost 4 40 exAb = Ok exAb.
Proof.
  assert (Hl : (0 < @lineHeight mockHost)%Q) by reflexivity.
  assert (Hy : (inject_Z (numLines exAb) * @lineHeight mockHost <= 40)%Q)
    by (vm_compute; discriminate).
  split; [exact Hl|]. split; [exact Hy|].
  exact (X7_tap_below_the_last_line_is_ignored mockHost exAb 4 40 Hl Hy).
Defined.

(** X8. A tap on a row of the buffer leaves the text alone, puts the caret
    on that row, and never puts it behind the last character of a
    non-empty line: the column is below the length of the line, and 0 on
    an empty line. *)
Theorem X8_tap_never_reaches_the_end_of_a_line
        (host : WindowBase) (w : Window) (x y : Q) (line : string) :
  JS.index (_lines w) (Qfloor (y / lineHeight)) = Some line ->
  exists w',
    moveCursorToTouch x y w = Ok w'
    /\ _lines w' = _lines w
    /\ _cursorY w' = Qfloor (y / lineHeight)
    /\ currentLine w' = Some line
    /\ 0 <= _cursorX w' <= JS.len line
    /\ (line <> ""%string -> _cursorX w' < JS.len line).
Proof.
  intros E. pose proof (JSFacts.index_Some _ _ _ E) as Hr.
  fold (numLines w) in Hr.
  destruct (touchScan_first line x (String.length line) 0) as (Hk & _).
  unfold moveCursorToTouch.
  destruct (Z.ltb_spec (Qfloor (y / lineHeight)) (numLines w)); [|lia].
  unfold currentLine at 1. cbn [_lines _cursorY setCursorY]. rewrite E.
  eexists. split; [reflexivity|].
  split; [reflexivity|]. split; [reflexivity|]. split; [exact E|].
  cbn [_cursorX setCursorX]. fold (JS.len line) in Hk.
  split; [lia|]. intros Hne.
  assert (0 < JS.len line).
  { destruct line; [contradiction | unfold JS.len; simpl; lia]. }
  lia.
Qed.

Lemma X8_witness :
  JS.index (_lines exAb) (Qfloor (4 / @lineHeight mockHost)) = Some "ab"%string
  /\ exists w',
      @moveCursorToTouch mockHost 1000 4 exAb = Ok w'
      /\ _lines w' = _lines exAb
      /\ _cursorY w' = Qfloor (4 / @lineHeight mockHost)
      /\ currentLine w' = Some "ab"%string
      /\ 0 <= _cursorX w' <= JS.len "ab"
      /\ ("ab"%string <> ""%string -> _cursorX w' < JS.len "ab").
Proof.
  assert (E : JS.index (_lines exAb) (Qfloor (4 / @lineHeight mockHost))
              = Some "ab"%string) by reflexivity.
  split; [exact E|].
  exact (X8_tap_never_reaches_the_end_of_a_line mockHost exAb 1000 4 "ab" E).
Defined.

(** ** The input element and composition *)

(** The edits leave the three fields of the input state alone. *)
Lemma processChar_input (host : WindowBase) (char : string) (w : Window) :
  _inputValue (windowOf (processChar char w)) = _inputValue w
  /\ _lastInputValue (windowOf (processChar char w)) = _lastInputValue w
  /\ _isComposing (windowOf (processChar char w)) = _isComposing w.
Proof.
  pattern w. apply room_ind. clear w. intros w IH.
  rewrite processChar_eq.
  destruct (currentLine w) as [line|]; [|repeat split].
  destruct (JS.gtQ _ _); [|repeat split].
  destruct (Z.ltb_spec (numLines w) (_maxLines w)); [|repeat split].
  apply (IH (breakLine line w));
    rewrite numLines_breakLine, maxLines_breakLine; lia.
Qed.

Lemma processBackspace_composing (w : Window) :
  _isComposing (windowOf (processBackspace w)) = _isComposing w.
Proof.
  unfold processBackspace;
    repeat match goal with
           | |- context [if ?b then _ else _] => destruct b
           | |- context [match ?o with Some _ => _ | None => _ end] =>
             destruct o
           end; reflexivity.
Qed.

Lemma forEach_input {A} (f : A -> Window -> outcome) (xs : list A)
      (w : Window) :
  (forall x w0,
      _inputValue (windowOf (f x w0)) = _inputValue w0
      /\ _lastInputValue (windowOf (f x w0)) = _lastInputValue w0
      /\ _isComposing (windowOf (f x w0)) = _isComposing w0) ->
  _inputValue (windowOf (forEach f xs w)) = _inputValue w
  /\ _lastInputValue (windowOf (forEach f xs w)) = _lastInputValue w
  /\ _isComposing (windowOf (forEach f xs w)) = _isComposing w.
Proof.
  intros Hf. revert w. induction xs as [|x xs IH]; intros w; simpl.
  - repeat split.
  - destruct (Hf x w) as (H1 & H2 & H3).
    destruct (f x w) as [w1|w1]; simpl in *.
    + destruct (IH w1) as (I1 & I2 & I3). rewrite I1, I2, I3.
      repeat split; assumption.
    + repeat split; assumption.
Qed.

Lemma repeatN_input (f : Window -> outcome) (n : nat) (w : Window) :
  (forall w0,
      _inputValue (windowOf (f w0)) = _inputValue w0
      /\ _lastInputValue (windowOf (f w0)) = _lastInputValue w0
      /\ _isComposing (windowOf (f w0)) = _isComposing w0) ->
  _inputValue (windowOf (repeatN f n w)) = _inputValue w
  /\ _lastInputValue (windowOf (repeatN f n w)) = _lastInputValue w
  /\ _isComposing (windowOf (repeatN f n w)) = _isComposing w.
Proof.
  intros Hf. revert w. induction n as [|n IH]; intros w; simpl.
  - repeat split.
  - destruct (Hf w) as (H1 & H2 & H3).
    destruct (f w) as [w1|w1]; simpl in *.
    + destruct (IH w1) as (I1 & I2 & I3). rewrite I1, I2, I3.
      repeat split; assumption.
    + repeat split; assumption.
Qed.

(** A pass that returns has recorded the element's value and touched
    neither the element nor the composition flag. *)
Lemma processInputDifference_records (host : WindowBase) (w w' : Window) :
  processInputDifference w = Ok w' ->
  _lastInputValue w' = _inputValue w
  /\ _inputValue w' = _inputValue w
  /\ _isComposing w' = _isComposing w.
Proof.
  unfold processInputDifference. intros E.
  set (r := if JS.len (_lastInputValue w) <? JS.len (_inputValue w)
            then forEach processChar
                   (JS.chars (JS.sliceFrom (_inputValue w)
                                           (JS.len (_lastInputValue w)))) w
            else if JS.len (_inputValue w) <? JS.len (_lastInputValue w)
                 then repeatN processBackspace
                        (Z.to_nat (JS.len (_lastInputValue w)
                                   - JS.len (_inputValue w))) w
                 else Ok w) in *.
  assert (F : _inputValue (windowOf r) = _inputValue w
              /\ _isComposing (windowOf r) = _isComposing w).
  { unfold r.
    destruct (JS.len (_lastInputValue w) <? JS.len (_inputValue w)).
    - destruct (forEach_input processChar
                  (JS.chars (JS.sliceFrom (_inputValue w)
                                          (JS.len (_lastInputValue w)))) w)
        as (H1 & _ & H3); [intros; apply processChar_input|].
      split; assumption.
    - destruct (JS.len (_inputValue w) <? JS.len (_lastInputValue w)).
      + destruct (repeatN_input processBackspace
                    (Z.to_nat (JS.len (_lastInputValue w)
                               - JS.len (_inputValue w))) w)
          as (H1 & _ & H3).
        * intros w0. destruct (processBackspace_input w0) as (A & B).
          pose proof (processBackspace_composing w0). repeat split; assumption.
        * split; assumption.
      + split; reflexivity. }
  destruct r as [w1|w1]; simpl in E; [|discriminate].
  injection E as <-. simpl in F. destruct F as (F1 & F2).
  repeat split; assumption.
Qed.

(** X9. An [input] event that repeats the value already reconciled
    changes nothing: when an [input] event with value [v] has returned, a
    second [input] event with the same [v] (as browsers fire after the end
    of a composition) returns the same window. *)
Theorem X9_repeated_input_changes_nothing
        (host : WindowBase) (v : string) (w w' : Window) :
  _isComposing w = false ->
  inputEvent v w = Ok w' ->
  inputEvent v w' = Ok w'.
Proof.
  intros Hc E. unfold inputEvent, _boundOnInputChange in E.
  cbn [_isComposing setInputValue] in E. rewrite Hc in E. cbn [negb] in E.
  destruct (processInputDifference_records host _ _ E) as (L & I & C).
  cbn [_inputValue _isComposing setInputValue] in L, I, C.
  assert (Ew : setInputValue v w' = w').
  { apply window_eq; cbn; try reflexivity. symmetry. exact I. }
  unfold inputEvent, _boundOnInputChange. rewrite Ew, C, Hc. cbn [negb].
  apply processInputDifference_in_sync. rewrite L, I. reflexivity.
Qed.

Lemma X9_witness :
  _isComposing (initialize 3) = false
  /\ @inputEvent mockHost "abcdefg" (initialize 3)
     = Ok (mkWindow 3 ["abcde"; "fg"]%string 2 1 false "abcdefg" "abcdefg")
  /\ @inputEvent mockHost "abcdefg"
       (mkWindow 3 ["abcde"; "fg"]%string 2 1 false "abcdefg" "abcdefg")
     = Ok (mkWindow 3 ["abcde"; "fg"]%string 2 1 false "abcdefg" "abcdefg").
Proof.
  assert (Hc : _isComposing (initialize 3) = false) by reflexivity.
  assert (E : @inputEvent mockHost "abcdefg" (initialize 3)
              = Ok (mkWindow 3 ["abcde"; "fg"]%string 2 1 false
                             "abcdefg" "abcdefg")) by reflexivity.
  split; [exact Hc|]. split; [exact E|].
  exact (X9_repeated_input_changes_nothing mockHost "abcdefg"
           (initialize 3) _ Hc E).
Defined.

Lemma last_cons {A} (x d : A) (l : list A) : last (x :: l) d = last l x.
Proof.
  revert x d. induction l as [|a l IH]; intros x d; [reflexivity|].
  change (last (x :: a :: l) d) with (last (a :: l) d).
  rewrite (IH a d), (IH a x). reflexivity.
Qed.

Lemma composing_inputs_then_end (host : WindowBase) (values : list string) :
  forall w,
    _isComposing w = true ->
    forEach handleEvent (map Input values ++ [CompositionEnd]) w
    = processInputDifference
        (setIsComposing false
           (setInputValue (last values (_inputValue w)) w)).
Proof.
  induction values as [|v vs IH]; intros w Hc.
  - cbn [map app forEach handleEvent last]. rewrite andThen_Ok.
    unfold compositionend. reflexivity.
  - cbn [map app forEach handleEvent].
    unfold inputEvent, _boundOnInputChange.
    cbn [_isComposing setInputValue]. rewrite Hc. cbn [negb andThen].
    rewrite IH by exact Hc. cbn [_inputValue setInputValue].
    rewrite last_cons. f_equal.
Qed.

(** X10. A composition is reconciled once, at its end.  From an idle
    window, [compositionstart], any number of [input] events and
    [compositionend] do exactly what one reconciliation pass does on the
    last value the element received (its old value when there was no
    [input] event): the values in between never reach the buffer. *)
Theorem X10_composition_is_reconciled_at_its_end
        (host : WindowBase) (values : list string) (w : Window) :
  _isComposing w = false ->
  forEach handleEvent
          (CompositionStart :: map Input values ++ [CompositionEnd]) w
  = processInputDifference (setInputValue (last values (_inputValue w)) w).
Proof.
  intros Hc. cbn [forEach handleEvent]. unfold compositionstart.
  cbn [andThen]. rewrite composing_inputs_then_end by reflexivity.
  f_equal. apply window_eq; cbn; try reflexivity. symmetry. exact Hc.
Qed.

Lemma X10_witness :
  _isComposing (initialize 3) = false
  /\ forEach (@handleEvent mockHost)
             (CompositionStart
                :: map Input ["k"; "ka"; "kan"; "xy"]%string
                ++ [CompositionEnd])
             (initialize 3)
     = Ok (mkWindow 3 ["xy"%string] 2 0 false "xy" "xy").
Proof.
  assert (Hc : _isComposing (initialize 3) = false) by reflexivity.
  split; [exact Hc|].
  exact (X10_composition_is_reconciled_at_its_end mockHost
           ["k"; "ka"; "kan"; "xy"]%string (initialize 3) Hc).
Defined.

(** ** The invariant under the events *)

Lemma processInputDifference_valid (host : WindowBase) (w : Window) :
  valid w -> exists w', processInputDifference w = Ok w' /\ valid w'.
Proof.
  intros V. unfold processInputDifference.
  assert (R : exists w1,
             (if JS.len (_lastInputValue w) <? JS.len (_inputValue w)
              then forEach processChar
                     (JS.chars (JS.sliceFrom (_inputValue w)
                                  (JS.len (_lastInputValue w)))) w
              else if JS.len (_inputValue w) <? JS.len (_lastInputValue w)
                   then repeatN processBackspace
                          (Z.to_nat (JS.len (_lastInputValue w)
                                     - JS.len (_inputValue w))) w
                   else Ok w) = Ok w1 /\ valid w1).
  { destruct (JS.len (_lastInputValue w) <? JS.len (_inputValue w)).
    - apply (forEach_valid processChar (fun _ => True)); try assumption.
      + intros x w0 _ V0. apply processChar_valid. exact V0.
      + apply Forall_forall. intros; exact I.
    - destruct (JS.len (_inputValue w) <? JS.len (_lastInputValue w)).
      + apply repeatN_valid; [|exact V].
        intros w0 V0. apply processBackspace_valid. exact V0.
      + exists w. split; [reflexivity | exact V]. }
  destruct R as (w1 & -> & V1). cbn [andThen].
  eexists. split; [reflexivity | exact V1].
Qed.

Lemma keyDown_valid (key : Key) (w : Window) :
  valid w -> exists w', _boundHandleKeyDown key w = Ok w' /\ valid w'.
Proof.
  intros V. destruct key; cbn [_boundHandleKeyDown].
  - destruct (moveCursorLeft_valid w V) as (w1 & -> & V1).
    eexists. split; [reflexivity | exact V1].
  - destruct (moveCursorRight_valid w V) as (w1 & -> & V1).
    eexists. split; [reflexivity | exact V1].
  - destruct (moveCursorUp_valid w V) as (w1 & -> & V1).
    eexists. split; [reflexivity | exact V1].
  - destruct (moveCursorDown_valid w V) as (w1 & -> & V1).
    eexists. split; [reflexivity | exact V1].
  - destruct (processBackspace_valid w V) as (w1 & -> & V1).
    eexists. split; [reflexivity | exact V1].
  - destruct (processNewLine_valid w V) as (w1 & -> & V1).
    eexists. split; [reflexivity | exact V1].
  - exists w. split; [reflexivity | exact V].
Qed.

Lemma handleEvent_valid (host : WindowBase) (e : Event) (w : Window) :
  (0 < lineHeight)%Q -> touchBelowPadding e ->
  valid w -> exists w', handleEvent e w = Ok w' /\ valid w'.
Proof.
  intros Hl Hb V. destruct e; cbn [handleEvent].
  - apply keyDown_valid. exact V.
  - unfold inputEvent, _boundOnInputChange.
    destruct (negb _).
    + apply processInputDifference_valid. exact V.
    + eexists. split; [reflexivity | exact V].
  - eexists. split; [reflexivity | exact V].
  - unfold compositionend. apply processInputDifference_valid. exact V.
  - unfold updateTouchInput.
    destruct (triggered && isTouchedInside touchX touchY) eqn:T.
    + cbv zeta. apply moveCursorToTouch_valid; try assumption.
      simpl in Hb. specialize (Hb T). lra.
    + exists w. split; [reflexivity | exact V].
Qed.

(** X11. Every sequence of events (keys, [input] events, composition
    start and end, touches) is handled without a raise and keeps the
    invariant of the editor — between 1 and [_maxLines] lines and a caret
    inside the buffer — provided no accepted touch lies in the padding
    above the first text row. *)
Theorem X11_events_keep_the_editor_valid
        (host : WindowBase) (maxLines : Z) (events : list Event) :
  (0 < lineHeight)%Q ->
  1 <= maxLines ->
  Forall touchBelowPadding events ->
  exists w',
    forEach handleEvent events (initialize maxLines) = Ok w' /\ valid w'.
Proof.
  intros Hl Hm He.
  apply (forEach_valid handleEvent touchBelowPadding); try assumption.
  - intros e w0 Hb V. apply handleEvent_valid; assumption.
  - apply initialize_valid. exact Hm.
Qed.

Lemma X11_witness :
  (0 < @lineHeight mockHost)%Q
  /\ 1 <= 3
  /\ exists w',
      forEach (@handleEvent mockHost)
              [Input "abcdefg"; KeyDown ArrowUp; KeyDown Enter;
               Touch true 30 20; KeyDown Backspace; CompositionStart;
               Input "x"; CompositionEnd]%string
              (initialize 3) = Ok w'
      /\ valid w'.
Proof.
  assert (Hl : (0 < @lineHeight mockHost)%Q) by reflexivity.
  assert (Hm : 1 <= 3) by lia.
  split; [exact Hl|]. split; [exact Hm|].
  apply (X11_events_keep_the_editor_valid mockHost 3 _ Hl Hm).
  repeat constructor. simpl. intros _. vm_compute. discriminate.
Defined.

(** ** The visible window and the cursor *)

(** X12. After [drawTextLines()] on a valid editor whose window shows at
    least one line, the caret's row lies inside the visible window, the
    window starts at row 0 when the buffer is not longer than the window
    and never reaches beyond the last row otherwise; so [drawCursor()]
    does not take its early return: with the cursor in its visible phase,
    [refresh()] draws it, under the caret's row and behind the text in
    front of the caret. *)
Theorem X12_the_caret_row_is_visible
        (host : WindowBase) (w : Window) (line : string) :
  valid w ->
  currentLine w = Some line ->
  1 <= maxVisibleLines ->
  let start := visibleStartLine w in
  0 <= start
  /\ start <= _cursorY w < start + maxVisibleLines
  /\ (numLines w <= maxVisibleLines -> start = 0)
  /\ (maxVisibleLines <= numLines w ->
      start + maxVisibleLines <= numLines w)
  /\ snd (refresh true w)
     = FillRect
         (padding + textWidth (JS.substringJS line 0 (_cursorX w)))%Q
         (padding + inject_Z (_cursorY w - start) * lineHeight
          + lineHeight - 2)%Q
         10 2.
Proof.
  intros (Hn & Hy & _) Ec Hm start.
  pose proof (Z.div_pos maxVisibleLines 2) as D0.
  pose proof (Z.div_lt maxVisibleLines 2) as D1.
  assert (B : 0 <= start
              /\ start <= _cursorY w < start + maxVisibleLines
              /\ (numLines w <= maxVisibleLines -> start = 0)
              /\ (maxVisibleLines <= numLines w ->
                  start + maxVisibleLines <= numLines w)).
  { unfold start, visibleStartLine.
    destruct (Z.ltb_spec (numLines w)
                (Z.max 0 (_cursorY w - maxVisibleLines / 2)
                 + maxVisibleLines)); lia. }
  destruct B as (B0 & B1 & B2 & B3).
  split; [exact B0|]. split; [exact B1|]. split; [exact B2|].
  split; [exact B3|].
  unfold refresh, drawTextLines. cbn [snd]. unfold drawCursor.
  fold start. cbn [negb].
  destruct (Z.ltb_spec (_cursorY w - start) 0); [lia|].
  destruct (Z.leb_spec maxVisibleLines (_cursorY w - start)); [lia|].
  cbn [orb]. rewrite Ec. reflexivity.
Qed.

Lemma X12_witness :
  valid exSecondLine
  /\ currentLine exSecondLine = Some "cd"%string
  /\ 1 <= @maxVisibleLines mockHost
  /\ snd (@refresh mockHost true exSecondLine)
     = FillRect (12 + 10 * inject_Z 1)%Q
                (12 + inject_Z (1 - 0) * 36 + 36 - 2)%Q 10 2.
Proof.
  assert (E : currentLine exSecondLine = Some "cd"%string) by reflexivity.
  assert (M : 1 <= @maxVisibleLines mockHost) by (vm_compute; discriminate).
  split; [exact exSecondLine_valid|]. split; [exact E|]. split; [exact M|].
  exact (proj2 (proj2 (proj2 (proj2
           (X12_the_caret_row_is_visible mockHost exSecondLine "cd"
              exSecondLine_valid E M))))).
Defined.

Lemma skipn_at {A} (l : list A) (k : nat) (x : A) :
  nth_error l k = Some x -> skipn k l = x :: skipn (S k) l.
Proof.
  revert k; induction l as [|a l IH]; intros [|k] E; simpl in *;
    try discriminate.
  - injection E as ->. reflexivity.
  - apply IH. exact E.
Qed.

Lemma drawLoop_rows (host : WindowBase) (lines : list string) (s : Z)
      (n i : nat) :
  0 <= s ->
  drawLoop lines s (Z.of_nat i) n
  = map (fun it => (snd it, padding,
                    (padding + inject_Z (Z.of_nat (fst it)) * lineHeight)%Q))
        (combine (seq i n) (firstn n (skipn (Z.to_nat s + i) lines))).
Proof.
  intros Hs. revert i. induction n as [|n IH]; intros i; [reflexivity|].
  cbn [drawLoop]. cbv zeta.
  replace (Z.of_nat i + 1) with (Z.of_nat (S i)) by lia.
  rewrite IH.
  replace (Z.to_nat s + S i)%nat with (S (Z.to_nat s + i)) by lia.
  destruct (Z.ltb_spec (s + Z.of_nat i) (Z.of_nat (List.length lines)))
    as [Hlt|Hge].
  - destruct (JSFacts.index_in_range lines (s + Z.of_nat i)) as (text & E);
      [lia|].
    rewrite E. unfold JS.index in E.
    destruct (Z.ltb_spec (s + Z.of_nat i) 0); [lia|].
    replace (Z.to_nat (s + Z.of_nat i)) with (Z.to_nat s + i)%nat in E
      by lia.
    rewrite (skipn_at lines _ text E). reflexivity.
  - rewrite (skipn_all2 (n := Z.to_nat s + i)) by lia.
    rewrite (skipn_all2 (n := S (Z.to_nat s + i))) by lia.
    rewrite !firstn_nil. destruct (seq (S i) n); reflexivity.
Qed.

Lemma combine_seq_short (l : list string) (i k : nat) :
  (List.length l <= k)%nat ->
  combine (seq i k) l = combine (seq i (List.length l)) l.
Proof.
  revert i k; induction l as [|x l IHl]; intros i k Hk.
  - destruct (seq i k); reflexivity.
  - destruct k as [|k]; simpl in Hk; [lia|].
    cbn [List.length seq combine]. rewrite (IHl (S i) k) by lia.
    reflexivity.
Qed.

Lemma rows_texts (host : WindowBase) (l : list string) (i : nat) :
  map (fun row : string * Q * Q => fst (fst row))
      (map (fun it : nat * string =>
              (snd it, padding,
               (padding + inject_Z (Z.of_nat (fst it)) * lineHeight)%Q))
           (combine (seq i (List.length l)) l))
  = l.
Proof.
  revert i; induction l as [|x l IHl]; intros i; [reflexivity|].
  cbn [List.length seq combine map fst snd]. rewrite IHl. reflexivity.
Qed.

(** X13. [drawTextLines()] draws a contiguous slice of the buffer: the
    lines from the start row on, at most as many as the window shows, in
    order, each at the left padding and one line height below the one
    before; it skips no line and draws none twice. *)
Theorem X13_the_drawn_lines_are_a_slice_of_the_buffer
        (host : WindowBase) (w : Window) :
  let start := fst (drawTextLines w) in
  let shown := firstn (Z.to_nat maxVisibleLines)
                      (skipn (Z.to_nat start) (_lines w)) in
  0 <= start
  /\ snd (drawTextLines w)
     = map (fun it => (snd it, padding,
                       (padding + inject_Z (Z.of_nat (fst it))
                                  * lineHeight)%Q))
           (combine (seq 0 (List.length shown)) shown)
  /\ map (fun row => fst (fst row)) (snd (drawTextLines w)) = shown.
Proof.
  intros start shown.
  assert (Hs : 0 <= start).
  { unfold start, drawTextLines, visibleStartLine. cbn [fst].
    destruct (_ <? _); lia. }
  assert (R : snd (drawTextLines w)
              = map (fun it => (snd it, padding,
                                (padding + inject_Z (Z.of_nat (fst it))
                                           * lineHeight)%Q))
                    (combine (seq 0 (List.length shown)) shown)).
  { unfold drawTextLines. cbn [snd].
    rewrite (drawLoop_rows host (_lines w) (visibleStartLine w)
               (Z.to_nat maxVisibleLines) 0 Hs).
    rewrite Nat.add_0_r.
    rewrite (combine_seq_short _ 0%nat (Z.to_nat maxVisibleLines))
      by apply firstn_le_length.
    reflexivity. }
  split; [exact Hs|]. split; [exact R|].
  rewrite R. apply rows_texts.
Qed.

(** ** The blinking cursor *)

(** X14. The cursor blinks with a period of 60 updates: starting from a
    timer [t] in [0 .. 29], after [n] calls of [updateCursorBlink()] the
    timer is [(t + n) mod 30], so it never leaves [0 .. 29], and the cursor
    has changed phase once for every full 30 in [t + n]. *)
Theorem X14_cursor_blink_period (n : nat) (visible : bool) (t : Z) :
  0 <= t < 30 ->
  blinkAfter n (mkBlink visible t)
  = mkBlink (if Z.even ((t + Z.of_nat n) / 30) then visible
             else negb visible)
            ((t + Z.of_nat n) mod 30)
  /\ 0 <= _blinkTimer (blinkAfter n (mkBlink visible t)) < 30.
Proof.
  intros Ht.
  assert (E : blinkAfter n (mkBlink visible t)
              = mkBlink (if Z.even ((t + Z.of_nat n) / 30) then visible
                         else negb visible)
                        ((t + Z.of_nat n) mod 30)).
  { induction n as [|n IH].
    - unfold blinkAfter. cbn. rewrite Z.add_0_r.
      rewrite Z.div_small, Z.mod_small by lia. reflexivity.
    - unfold blinkAfter in *. rewrite Nat.iter_succ, IH.
      pose proof (Z.div_mod (t + Z.of_nat n) 30 ltac:(lia)) as D.
      pose proof (Z.mod_pos_bound (t + Z.of_nat n) 30 ltac:(lia)) as B.
      set (q := (t + Z.of_nat n) / 30) in *.
      set (r := (t + Z.of_nat n) mod 30) in *.
      unfold updateCursorBlink. cbn [_blinkTimer _cursorVisible].
      destruct (Z.leb_spec 30 (r + 1)) as [Hw|Hw]; cbn [fst].
      + assert (Q : (t + Z.of_nat (S n)) / 30 = q + 1)
          by (symmetry; apply (Z.div_unique _ 30 (q + 1) 0); lia).
        assert (R : (t + Z.of_nat (S n)) mod 30 = 0)
          by (symmetry; apply (Z.mod_unique _ 30 (q + 1) 0); lia).
        rewrite Q, R. change (q + 1) with (Z.succ q).
        rewrite Z.even_succ, <- Z.negb_even.
        destruct (Z.even q), visible; reflexivity.
      + assert (Q : (t + Z.of_nat (S n)) / 30 = q)
          by (symmetry; apply (Z.div_unique _ 30 q (r + 1)); lia).
        assert (R : (t + Z.of_nat (S n)) mod 30 = r + 1)
          by (symmetry; apply (Z.mod_unique _ 30 q (r + 1)); lia).
        rewrite Q, R. reflexivity. }
  split; [exact E|]. rewrite E. cbn [_blinkTimer].
  apply Z.mod_pos_bound. lia.
Qed.

Lemma X14_witness :
  0 <= 0 < 30
  /\ blinkAfter 95 initialBlink = mkBlink false 5.
Proof.
  assert (H : 0 <= 0 < 30) by lia.
  split; [exact H|].
  exact (proj1 (X14_cursor_blink_period 95 true 0 H)).
Defined.

(** ** Confirming the input *)

Lemma join_two_or_more (x y : string) (rest : list string) :
  JS.join (x :: y :: rest) newline <> ""%string.
Proof.
  unfold JS.join. cbn [String.concat].
  destruct x; discriminate.
Qed.

(** X15. On OK the game variable receives the number 0 exactly when the
    buffer is one empty line; otherwise it receives the text, the lines
    joined by newlines. A buffer of several empty lines is stored as
    text, not as 0. *)
Theorem X15_ok_stores_zero_only_for_one_empty_line (w : Window) :
  1 <= numLines w ->
  (onInputOk w = NumberValue 0 <-> _lines w = [""%string])
  /\ (_lines w <> [""%string] -> onInputOk w = TextValue (inputText w)).
Proof.
  intros Hn. unfold onInputOk, inputText, numLines in *.
  destruct (_lines w) as [|x [|y rest]]; simpl List.length in Hn; [lia| |].
  - unfold JS.join. cbn [String.concat].
    destruct (String.eqb_spec x "") as [->|Hne].
    + split; [split; reflexivity | intros H; contradiction].
    + split; [split; [discriminate | intros E; injection E as ->;
                                     contradiction]
             | reflexivity].
  - pose proof (join_two_or_more x y rest) as Hne.
    destruct (String.eqb_spec (JS.join (x :: y :: rest) newline) "")
      as [E|_]; [contradiction|].
    split; [split; discriminate | reflexivity].
Qed.

Lemma X15_witness :
  1 <= numLines (exWindow 3 [""; ""]%string 0 1)
  /\ onInputOk (exWindow 3 [""; ""]%string 0 1) = TextValue newline
  /\ onInputOk (initialize 3) = NumberValue 0.
Proof.
  assert (H : 1 <= numLines (exWindow 3 [""; ""]%string 0 1))
    by (vm_compute; discriminate).
  assert (H0 : 1 <= numLines (initialize 3)) by (vm_compute; discriminate).
  split; [exact H|]. split.
  - apply (proj2 (X15_ok_stores_zero_only_for_one_empty_line _ H)).
    discriminate.
  - apply (proj1 (X15_ok_stores_zero_only_for_one_empty_line _ H0)).
    reflexivity.
Defined.

(** ** Lines and the available width *)

Lemma slice_len_le (s : string) (a b : Z) : JS.len (JS.slice s a b) <= JS.len s.
Proof.
  unfold JS.slice. set (from := JS.relIndex (JS.len s) a).
  set (to := JS.relIndex (JS.len s) b).
  pose proof (JSFacts.length_substring_le
                (Z.to_nat from) (Z.to_nat (Z.max (to - from) 0)) s) as L.
  pose proof (JSFacts.len_nonneg s).
  assert (0 <= from <= JS.len s /\ 0 <= to <= JS.len s).
  { unfold from, to, JS.relIndex.
    destruct (Z.ltb_spec a 0); destruct (Z.ltb_spec b 0); lia. }
  unfold JS.len in *. lia.
Qed.

Lemma fitsWidth_cut (host : WindowBase) (w : Window)
      (pre post : list string) (mid : list string) :
  _lines w = (pre ++ mid ++ post)%list ->
  (fitsWidth w <->
   Forall (fun l => (textWidth l <= maxWidth)%Q) pre
   /\ Forall (fun l => (textWidth l <= maxWidth)%Q) mid
   /\ Forall (fun l => (textWidth l <= maxWidth)%Q) post).
Proof.
  intros El. unfold fitsWidth. rewrite El, !Forall_app. reflexivity.
Qed.

Lemma breakLine_fitsWidth (host : WindowBase) (cw : Q) (w : Window)
      (line : string) :
  (forall s, textWidth s = fixedWidth cw s) -> (0 < cw)%Q ->
  currentLine w = Some line ->
  fitsWidth w -> fitsWidth (breakLine line w).
Proof.
  intros Hfw Hc Ec F.
  destruct (currentLine_cut _ _ Ec) as (pre & post & El & Ey).
  destruct (breakLine_cut w line pre post El Ey) as (Lb & _).
  apply (fitsWidth_cut host w pre post [line]) in F; [|exact El].
  destruct F as (Fpre & Fline & Fpost).
  apply (fitsWidth_cut host _ pre post
           [JS.slice line 0 (_cursorX w); JS.sliceFrom line (_cursorX w)]);
    [exact Lb|].
  split; [exact Fpre|]. split; [|exact Fpost].
  apply Forall_inv in Fline.
  assert (P : forall piece, JS.len piece <= JS.len line ->
                            (textWidth piece <= maxWidth)%Q).
  { intros piece Hp. apply (Qle_trans _ (textWidth line)); [|exact Fline].
    rewrite !Hfw. apply fixedWidth_le; assumption. }
  repeat constructor; apply P; apply slice_len_le.
Qed.

(** X16. Under a fixed-width font, typing and Enter never make a line
    wider than the available width: if every line of the buffer fits, so
    does every line after [processChar] and after [processNewLine]. *)
Theorem X16_typing_keeps_lines_within_the_width
        (host : WindowBase) (cw : Q) (char : string) (w : Window) :
  (forall s, textWidth s = fixedWidth cw s) ->
  (0 < cw)%Q ->
  fitsWidth w ->
  fitsWidth (windowOf (processChar char w))
  /\ fitsWidth (windowOf (processNewLine w)).
Proof.
  intros Hfw Hc F. split.
  - revert F. pattern w. apply room_ind. clear w. intros w IH F.
    rewrite processChar_eq.
    destruct (currentLine w) as [line|] eqn:Ec; [|exact F].
    destruct (JS.gtQ _ _) eqn:T.
    + destruct (Z.ltb_spec (numLines w) (_maxLines w)); [|exact F].
      apply IH.
      * rewrite numLines_breakLine, maxLines_breakLine. lia.
      * rewrite numLines_breakLine, maxLines_breakLine. lia.
      * apply (breakLine_fitsWidth host cw); assumption.
    + apply JSFacts.gtQ_false in T. cbn [windowOf].
      destruct (currentLine_cut _ _ Ec) as (pre & post & El & Ey).
      destruct (insertAtCaret_cut w line char pre post El Ey) as (Li & _).
      apply (fitsWidth_cut host w pre post [line]) in F; [|exact El].
      destruct F as (Fpre & _ & Fpost).
      apply (fitsWidth_cut host _ pre post [potentialLineOf line char w]);
        [exact Li|].
      split; [exact Fpre|]. split; [|exact Fpost].
      repeat constructor. exact T.
  - unfold processNewLine.
    destruct (_maxLines w <=? numLines w); [exact F|].
    destruct (currentLine w) as [line|] eqn:Ec; [|exact F].
    apply (breakLine_fitsWidth host cw); assumption.
Qed.

Lemma X16_witness :
  (forall s, @textWidth mockHost s = fixedWidth 10 s)
  /\ (0 < 10)%Q
  /\ @fitsWidth mockHost exCapacityInside
  /\ @fitsWidth mockHost (windowOf (@processChar mockHost "x" exCapacityInside))
  /\ @fitsWidth mockHost (windowOf (processNewLine exCapacityInside)).
Proof.
  assert (H1 : forall s, @textWidth mockHost s = fixedWidth 10 s)
    by (intros s; reflexivity).
  assert (H2 : (0 < 10)%Q) by reflexivity.
  assert (H3 : @fitsWidth mockHost exCapacityInside).
  { repeat constructor. vm_compute. discriminate. }
  split; [exact H1|]. split; [exact H2|]. split; [exact H3|].
  exact (X16_typing_keeps_lines_within_the_width mockHost 10 "x"
           exCapacityInside H1 H2 H3).
Defined.

(** X17. Backspace at column 0 joins the line to the one before without
    looking at the width: when the two lines together are wider than the
    available width, the joined line overflows it, even if every line
    fitted before. *)
Theorem X17_joining_lines_ignores_the_width
        (host : WindowBase) (w : Window) (pre post : list string)
        (prev line : string) :
  _lines w = (pre ++ prev :: line :: post)%list ->
  Z.of_nat (List.length pre) + 1 = _cursorY w ->
  _cursorX w = 0 ->
  (maxWidth < textWidth (prev ++ line))%Q ->
  exists w',
    processBackspace w = Ok w'
    /\ currentLine w' = Some (prev ++ line)%string
    /\ ~ fitsWidth w'.
Proof.
  intros El Ey Ex Hw.
  rewrite (processBackspace_merge w pre post prev line El Ey) by lia.
  eexists. split; [reflexivity|].
  assert (Ec : currentLine
                 (setCursorY (_cursorY w - 1)
                    (setLines (pre ++ (prev ++ line)%string :: post)
                       (setCursorX (JS.len prev) w)))
               = Some (prev ++ line)%string).
  { unfold currentLine. cbn [_lines _cursorY setCursorY setLines setCursorX].
    replace (_cursorY w - 1) with (Z.of_nat (List.length pre)) by lia.
    apply JSFacts.index_at_cut. }
  split; [exact Ec|].
  unfold fitsWidth. cbn [_lines setCursorY setLines setCursorX].
  intros F. apply Forall_app in F. destruct F as (_ & F).
  apply Forall_inv in F. exact (Qlt_not_le _ _ Hw F).
Qed.

Lemma X17_witness :
  _lines (exWindow 3 ["abcd"; "efg"]%string 0 1)
  = ([] ++ "abcd"%string :: "efg"%string :: [])%list
  /\ (@maxWidth mockHost < @textWidth mockHost ("abcd" ++ "efg"))%Q
  /\ @fitsWidth mockHost (exWindow 3 ["abcd"; "efg"]%string 0 1)
  /\ exists w',
      processBackspace (exWindow 3 ["abcd"; "efg"]%string 0 1) = Ok w'
      /\ currentLine w' = Some ("abcd" ++ "efg")%string
      /\ ~ @fitsWidth mockHost w'.
Proof.
  assert (Hw : (@maxWidth mockHost < @textWidth mockHost ("abcd" ++ "efg"))%Q)
    by reflexivity.
  split; [reflexivity|]. split; [exact Hw|]. split.
  - repeat constructor; vm_compute; discriminate.
  - exact (X17_joining_lines_ignores_the_width mockHost
             (exWindow 3 ["abcd"; "efg"]%string 0 1) [] [] "abcd" "efg"
             eq_refl eq_refl eq_refl Hw).
Defined.

(** ** The name input *)

(** The name input holds one line, on row 0, with the caret inside it. *)
Lemma nameInput_step (host : WindowBase) (maxChars : Z) (char : string)
      (w : Window) (line : string) :
  _lines w = [line] -> _cursorY w = 0 -> _maxLines w = 1 ->
  0 <= _cursorX w <= JS.len line ->
  exists w' line',
    Window_NameInput.processChar maxChars char w = Ok w'
    /\ _lines w' = [line'] /\ _cursorY w' = 0 /\ _maxLines w' = 1
    /\ 0 <= _cursorX w' <= JS.len line'
    /\ JS.len line' <= Z.max (JS.len line) (maxChars - 1 + JS.len char)
    /\ (maxChars <= JS.len line -> w' = w)
    /\ (JS.len line < maxChars ->
        (textWidth (JS.slice line 0 (_cursorX w) ++ char
                    ++ JS.sliceFrom line (_cursorX w)) <= maxWidth)%Q ->
        line' = (JS.slice line 0 (_cursorX w) ++ char
                 ++ JS.sliceFrom line (_cursorX w))%string).
Proof.
  intros El Ey Em Hx.
  assert (Ec : currentLine w = Some line)
    by (unfold currentLine; rewrite El, Ey; reflexivity).
  pose proof (JSFacts.len_nonneg char) as Hc.
  unfold Window_NameInput.processChar. rewrite El.
  change (JS.index [line] 0) with (Some line). cbv iota.
  destruct (Z.leb_spec maxChars (JS.len line)) as [Hfull|Hroom].
  - exists w, line. repeat split; try assumption; try lia.
  - unfold Window_NameInput.superProcessChar, processCharFuel, numLines.
    rewrite El, Em. cbn [List.length Z.of_nat Z.sub Z.to_nat Pos.pred_double
                         Z.pos_sub Z.opp].
    change (Z.to_nat (1 - Z.of_nat 1)) with 0%nat.
    cbn [Window_NameInput.superProcessCharFrom]. rewrite Ec.
    destruct (JS.gtQ _ _) eqn:G.
    + unfold numLines. rewrite El, Em. cbn [List.length].
      change (Z.of_nat 1 <? 1) with false. cbv iota.
      apply JSFacts.gtQ_true in G.
      exists w, line. split; [reflexivity|]. split; [exact El|].
      split; [exact Ey|]. split; [exact Em|]. split; [exact Hx|].
      split; [lia|]. split; [reflexivity|].
      intros _ F. exfalso. exact (Qlt_not_le _ _ G F).
    + destruct (JSFacts.slice_sliceFrom line (_cursorX w) Hx)
        as (_ & L1 & L2).
      eexists. eexists. split; [reflexivity|].
      cbn [_lines _cursorX _cursorY _maxLines setLines setCursorX].
      rewrite El, Ey. cbn [JS.assign Z.ltb Z.to_nat JS.setNth].
      split; [reflexivity|]. split; [reflexivity|]. split; [exact Em|].
      rewrite !JSFacts.len_append, L1, L2.
      split; [lia|]. split; [lia|]. split; [intros; lia | reflexivity].
Qed.

(** X18. The name input compares the length of the name with [maxChars]
    before a character goes in, not after.  Typing characters of at most
    [u] code units each into the name input, which starts with the
    actor's name, leaves a single line no longer than the larger of the
    length of that name and [maxChars - 1 + u]: characters of one code
    unit never take the name beyond [maxChars], a character of two code
    units can take it to [maxChars + 1], and does when the name has
    [maxChars - 1] units and the result fits the width.  Once the name has
    [maxChars] units, every character is refused. *)
Theorem X18_name_input_respects_maxChars
        (host : WindowBase) (maxChars u : Z) (name : string)
        (typed : list string) :
  Forall (fun char => JS.len char <= u) typed ->
  exists w' line',
    forEach (Window_NameInput.processChar maxChars) typed
            (Window_NameInput.initialize name) = Ok w'
    /\ _lines w' = [line']
    /\ JS.len line' <= Z.max (JS.len name) (maxChars - 1 + u)
    /\ (maxChars <= JS.len name -> w' = Window_NameInput.initialize name)
    /\ (forall char,
           typed = [char] ->
           JS.len name = maxChars - 1 ->
           (textWidth (name ++ char) <= maxWidth)%Q ->
           line' = (name ++ char)%string).
Proof.
  intros Hu.
  assert (G : forall (w : Window) (line : string),
             _lines w = [line] -> _cursorY w = 0 -> _maxLines w = 1 ->
             0 <= _cursorX w <= JS.len line ->
             exists w' line',
               forEach (Window_NameInput.processChar maxChars) typed w
               = Ok w'
               /\ _lines w' = [line']
               /\ JS.len line' <= Z.max (JS.len line) (maxChars - 1 + u)
               /\ (maxChars <= JS.len line -> w' = w)).
  { induction Hu as [|char typed Hc _ IH]; intros w line El Ey Em Hx.
    - exists w, line. cbn [forEach].
      split; [reflexivity|]. split; [exact El|]. split; [lia|]. reflexivity.
    - destruct (nameInput_step host maxChars char w line El Ey Em Hx)
        as (w1 & line1 & E1 & El1 & Ey1 & Em1 & Hx1 & Hl1 & Hsame & _).
      destruct (IH w1 line1 El1 Ey1 Em1 Hx1)
        as (w' & line' & E' & El' & Hl' & Hsame').
      exists w', line'. cbn [forEach]. rewrite E1. cbn [andThen].
      split; [exact E'|]. split; [exact El'|]. split; [lia|].
      intros Hfull. specialize (Hsame Hfull). subst w1.
      rewrite El in El1. injection El1 as <-. apply Hsame'. exact Hfull. }
  assert (Hx0 : 0 <= _cursorX (Window_NameInput.initialize name)
                <= JS.len name).
  { cbn [_cursorX Window_NameInput.initialize setCursorX].
    pose proof (JSFacts.len_nonneg name). lia. }
  destruct (G (Window_NameInput.initialize name) name
              eq_refl eq_refl eq_refl Hx0)
    as (w' & line' & E' & El' & Hl' & Hsame').
  exists w', line'. split; [exact E'|]. split; [exact El'|].
  split; [exact Hl'|]. split; [exact Hsame'|].
  intros char -> Hn F.
  destruct (nameInput_step host maxChars char
              (Window_NameInput.initialize name) name
              eq_refl eq_refl eq_refl Hx0)
    as (w1 & line1 & E1 & El1 & _ & _ & _ & _ & _ & Hfit).
  cbn [forEach] in E'. rewrite E1 in E'. cbn [andThen] in E'.
  injection E' as <-. rewrite El1 in El'. injection El' as <-.
  change (_cursorX (Window_NameInput.initialize name)) with (JS.len name)
    in Hfit.
  rewrite JSFacts.slice_whole, JSFacts.sliceFrom_end,
    JSFacts.append_empty_r in Hfit.
  apply Hfit; [lia | exact F].
Qed.

(** A name one unit short of [maxChars = 3] takes a character of two
    units and ends with four. *)
Lemma X18_witness :
  Forall (fun char => JS.len char <= 2) ["cd"; "e"]%string
  /\ forEach (@Window_NameInput.processChar mockHost 3) ["cd"; "e"]%string
             (Window_NameInput.initialize "ab")
     = Ok (exWindow 1 ["abcd"%string] 4 0)
  /\ exists w' line',
      forEach (@Window_NameInput.processChar mockHost 3) ["cd"; "e"]%string
              (Window_NameInput.initialize "ab") = Ok w'
      /\ _lines w' = [line']
      /\ JS.len line' <= Z.max (JS.len "ab") (3 - 1 + 2)
      /\ (3 <= JS.len "ab" -> w' = Window_NameInput.initialize "ab")
      /\ (forall char,
             ["cd"; "e"]%string = [char] ->
             JS.len "ab" = 3 - 1 ->
             (@textWidth mockHost ("ab" ++ char) <= @maxWidth mockHost)%Q ->
             line' = ("ab" ++ char)%string).
Proof.
  assert (H : Forall (fun char => JS.len char <= 2) ["cd"; "e"]%string).
  { repeat constructor; unfold JS.len; simpl; lia. }
  split; [exact H|]. split; [reflexivity|].
  exact (X18_name_input_respects_maxChars mockHost 3 2 "ab"
           ["cd"; "e"]%string H).
Defined.

(** ** The tap of the first version (src/TextInput.js) *)

Lemma nearestScan_best (host : WindowBase) (line : string) (x : Q)
      (n : nat) :
  forall (i : Z) (d : Q) (bestPos : Z),
    0 <= bestPos < i ->
    d = Qabs (textWidth (JS.substringJS line 0 bestPos) - x) ->
    (forall j, 0 <= j < i ->
               (d <= Qabs (textWidth (JS.substringJS line 0 j) - x))%Q) ->
    let r := TextInput.nearestScan line x i n (Some d) bestPos in
    0 <= r < i + Z.of_nat n
    /\ forall j, 0 <= j < i + Z.of_nat n ->
                 (Qabs (textWidth (JS.substringJS line 0 r) - x)
                  <= Qabs (textWidth (JS.substringJS line 0 j) - x))%Q.
Proof.
  induction n as [|n IH]; intros i d bestPos Hb Hd Hmin.
  - cbn [TextInput.nearestScan]. split; [lia|].
    intros j Hj. rewrite <- Hd. apply Hmin. lia.
  - cbn [TextInput.nearestScan]. cbv zeta.
    destruct (JS.ltQ _ d) eqn:T.
    + apply JSFacts.ltQ_true in T.
      destruct (IH (i + 1)
                  (Qabs (textWidth (JS.substringJS line 0 i) - x)) i)
        as (Hr & Hbest); [lia | reflexivity | |].
      * intros j Hj. destruct (Z.eq_dec j i) as [->|Hne].
        -- apply Qle_refl.
        -- apply Qlt_le_weak. apply (Qlt_le_trans _ d); [exact T|].
           apply Hmin. lia.
      * split; [lia|]. intros j Hj. apply Hbest. lia.
    + apply JSFacts.ltQ_false in T.
      destruct (IH (i + 1) d bestPos) as (Hr & Hbest); [lia | exact Hd | |].
      * intros j Hj. destruct (Z.eq_dec j i) as [->|Hne].
        -- exact T.
        -- apply Hmin. lia.
      * split; [lia|]. intros j Hj. apply Hbest. lia.
Qed.

(** X19. In src/TextInput.js a tap on a row of the buffer puts the caret
    at a character boundary of that row nearest to the tap: no boundary
    of the line, its end included, is closer to [x] than the one
    chosen. *)
Theorem X19_first_version_taps_the_nearest_boundary
        (host : WindowBase) (w : Window) (x y : Q) (line : string) :
  JS.index (_lines w) (Qfloor (y / lineHeight)) = Some line ->
  exists w',
    TextInput.moveCursorToTouch x y w = Ok w'
    /\ _lines w' = _lines w
    /\ _cursorY w' = Qfloor (y / lineHeight)
    /\ 0 <= _cursorX w' <= JS.len line
    /\ forall j, 0 <= j <= JS.len line ->
                 (Qabs (textWidth (JS.substringJS line 0 (_cursorX w')) - x)
                  <= Qabs (textWidth (JS.substringJS line 0 j) - x))%Q.
Proof.
  intros E. pose proof (JSFacts.index_Some _ _ _ E) as Hr.
  fold (numLines w) in Hr.
  unfold TextInput.moveCursorToTouch.
  destruct (Z.ltb_spec (Qfloor (y / lineHeight)) (numLines w)); [|lia].
  unfold currentLine. cbn [_lines _cursorY setCursorY]. rewrite E.
  eexists. split; [reflexivity|].
  cbn [_lines _cursorX _cursorY setCursorX setCursorY].
  split; [reflexivity|]. split; [reflexivity|].
  cbn [TextInput.nearestScan]. cbv zeta.
  destruct (nearestScan_best host line x (String.length line) 1
              (Qabs (textWidth (JS.substringJS line 0 0) - x)) 0)
    as (Hk & Hbest); [lia | reflexivity | |].
  - intros j Hj. replace j with 0 by lia. apply Qle_refl.
  - change (0 + 1) with 1. unfold JS.len. split; [lia|].
    intros j Hj. apply Hbest. lia.
Qed.

Lemma X19_witness :
  JS.index (_lines exAb) (Qfloor (4 / @lineHeight mockHost)) = Some "ab"%string
  /\ exists w',
      @TextInput.moveCursorToTouch mockHost 16 4 exAb = Ok w'
      /\ _lines w' = _lines exAb
      /\ _cursorY w' = Qfloor (4 / @lineHeight mockHost)
      /\ 0 <= _cursorX w' <= JS.len "ab"
      /\ forall j, 0 <= j <= JS.len "ab" ->
           (Qabs (@textWidth mockHost
                    (JS.substringJS "ab" 0 (_cursorX w')) - 16)
            <= Qabs (@textWidth mockHost (JS.substringJS "ab" 0 j) - 16))%Q.
Proof.
  assert (E : JS.index (_lines exAb) (Qfloor (4 / @lineHeight mockHost))
              = Some "ab"%string) by reflexivity.
  split; [exact E|].
  exact (X19_first_version_taps_the_nearest_boundary mockHost exAb 16 4
           "ab" E).
Defined.

(** ** Typing past the end of a line *)

Lemma typedShape_flat (k : Z) (w : Window) (fulls : list string)
      (cur : string) :
  typedShape k w fulls cur ->
  flatText w = (String.concat "" fulls ++ cur)%string
  /\ JS.len (flatText w) = k * Z.of_nat (List.length fulls) + JS.len cur.
Proof.
  intros (El & Hf & _). unfold flatText. rewrite El, concat_empty_app.
  cbn [String.concat]. split; [reflexivity|].
  rewrite JSFacts.len_append. f_equal.
  clear El. induction Hf as [|l fulls Hl _ IH].
  - cbn [String.concat List.length]. change (JS.len "") with 0. lia.
  - rewrite concat_empty_cons, JSFacts.len_append, IH, Hl.
    cbn [List.length]. lia.
Qed.

Lemma typing_step (host : WindowBase) (k : Z) (a : ascii) (w : Window)
      (fulls : list string) (cur : string) :
  1 <= k ->
  (forall s, (textWidth s <= maxWidth)%Q <-> JS.len s <= k) ->
  a <> backslash ->
  typedShape k w fulls cur ->
  exists w' fulls' cur',
    processChar (String a "") w = Ok w'
    /\ typedShape k w' fulls' cur'
    /\ _maxLines w' = _maxLines w
    /\ (flatText w' = (flatText w ++ String a "")%string
        \/ (w' = w /\ JS.len (flatText w) = k * _maxLines w)).
Proof.
  intros Hk Hcap Ha S. pose proof S as (El & Hf & Hc & Ey & Ex & Hn).
  destruct (typedShape_flat k w fulls cur S) as (Fl & Fn).
  set (char := String a ""%string).
  assert (Ep : processedCharOf char = char)
    by (apply processedCharOf_plain; exact Ha).
  assert (Ec : currentLine w = Some cur).
  { unfold currentLine. rewrite El, Ey. apply JSFacts.index_at_cut. }
  assert (P : potentialLineOf cur char w = (cur ++ char)%string).
  { unfold potentialLineOf.
    rewrite Ex, Ep, JSFacts.slice_whole, JSFacts.sliceFrom_end.
    rewrite JSFacts.append_empty_r. reflexivity. }
  assert (Lp : JS.len (cur ++ char) = JS.len cur + 1)
    by (rewrite JSFacts.len_append; reflexivity).
  destruct (Z.lt_ge_cases (JS.len cur) k) as [Hroom|Hfull].
  - (* the character fits *)
    destruct (processChar_fits char w cur Ec) as (E1 & _).
    { rewrite P. apply Hcap. lia. }
    destruct (insertAtCaret_cut w cur char fulls [] El (eq_sym Ey))
      as (Li & Xi & Yi).
    rewrite P in Li.
    exists (insertAtCaret cur char w), fulls, (cur ++ char)%string.
    split; [exact E1|]. split; [|split; [reflexivity|]].
    + split; [exact Li|]. split; [exact Hf|]. split; [rewrite Lp; lia|].
      split; [rewrite Yi; exact Ey|].
      split; [rewrite Xi, Ep, Ex, Lp; reflexivity|].
      change (_maxLines (insertAtCaret cur char w)) with (_maxLines w).
      unfold numLines in *. rewrite Li, length_app.
      rewrite El, length_app in Hn. exact Hn.
    + left. unfold flatText at 1. rewrite Li, concat_empty_app.
      cbn [String.concat]. rewrite Fl, JSFacts.append_assoc. reflexivity.
  - assert (Hck : JS.len cur = k) by lia.
    assert (F : (maxWidth < textWidth (potentialLineOf cur char w))%Q).
    { apply Qnot_le_lt. intros H. apply Hcap in H. rewrite P, Lp in H. lia. }
    destruct (Z.lt_ge_cases (numLines w) (_maxLines w)) as [Hlt|Hge].
    + (* one more line *)
      assert (Se : JS.sliceFrom cur (_cursorX w) = ""%string)
        by (rewrite Ex; apply JSFacts.sliceFrom_end).
      assert (Sw : JS.slice cur 0 (_cursorX w) = cur)
        by (rewrite Ex; apply JSFacts.slice_whole).
      destruct (processChar_wraps_once char w cur Ec F Hlt) as (E1 & _).
      { apply Hcap. rewrite Se, Ep, JSFacts.append_empty_r.
        change (JS.len char) with 1. lia. }
      destruct (breakLine_cut w cur fulls [] El (eq_sym Ey))
        as (Lb & Yb & Xb & _).
      rewrite Se, Sw in Lb.
      destruct (JSFacts.cut_shift fulls [""%string] cur) as (Sh & Shl).
      rewrite Sh in Lb. rewrite Se in E1.
      destruct (insertAtCaret_cut (breakLine cur w) "" char
                  (fulls ++ [cur])%list [] Lb)
        as (Li & Xi & Yi); [rewrite Shl, Yb; lia|].
      assert (Pb : potentialLineOf "" char (breakLine cur w) = char).
      { unfold potentialLineOf. rewrite Xb, Ep. reflexivity. }
      rewrite Pb in Li.
      exists (insertAtCaret "" char (breakLine cur w)),
             (fulls ++ [cur])%list, char.
      split; [exact E1|]. split; [|split; [reflexivity|]].
      * split; [exact Li|]. split.
        { apply Forall_app. split; [exact Hf|]. repeat constructor.
          exact Hck. }
        split; [change (JS.len char) with 1; lia|].
        split; [rewrite Yi, Yb, Shl, Ey; reflexivity|].
        split; [rewrite Xi, Xb, Ep; reflexivity|].
        change (_maxLines (insertAtCaret "" char (breakLine cur w)))
          with (_maxLines w).
        unfold numLines in *. rewrite Li, !length_app.
        rewrite El, length_app in Hlt. cbn [List.length] in *. lia.
      * left. unfold flatText at 1. rewrite Li, !concat_empty_app.
        cbn [String.concat]. rewrite Fl, !JSFacts.append_assoc.
        reflexivity.
    + (* the buffer is full *)
      destruct (processChar_full char w cur Ec F) as (E1 & _); [lia|].
      exists w, fulls, cur. split; [exact E1|]. split; [exact S|].
      split; [reflexivity|]. right. split; [reflexivity|].
      rewrite Fn, Hck. unfold numLines in *.
      rewrite El, length_app in Hn, Hge. cbn [List.length] in *. nia.
Qed.

Lemma typing_run (host : WindowBase) (k : Z) (typed : list string) :
  1 <= k ->
  (forall s, (textWidth s <= maxWidth)%Q <-> JS.len s <= k) ->
  Forall plainUnit typed ->
  forall (w : Window) (fulls : list string) (cur : string),
    typedShape k w fulls cur ->
    exists w' fulls' cur' kept dropped,
      forEach processChar typed w = Ok w'
      /\ typedShape k w' fulls' cur'
      /\ _maxLines w' = _maxLines w
      /\ typed = (kept ++ dropped)%list
      /\ flatText w' = (flatText w ++ String.concat "" kept)%string
      /\ (dropped <> [] -> JS.len (flatText w') = k * _maxLines w).
Proof.
  intros Hk Hcap Hp.
  induction Hp as [|char typed (a & -> & Ha) _ IH]; intros w fulls cur S.
  - exists w, fulls, cur, [], []. cbn [forEach String.concat].
    split; [reflexivity|]. split; [exact S|]. split; [reflexivity|].
    split; [reflexivity|].
    split; [now rewrite JSFacts.append_empty_r | intros H; contradiction].
  - destruct (typing_step host k a w fulls cur Hk Hcap Ha S)
      as (w1 & fulls1 & cur1 & E1 & S1 & M1 & Hflat).
    destruct (IH w1 fulls1 cur1 S1)
      as (w' & fulls' & cur' & kept & dropped & E' & S' & M' & HT & Fk & Fd).
    cbn [forEach]. rewrite E1. cbn [andThen].
    destruct Hflat as [Hgrow | (Hsame & Hlen)].
    + exists w', fulls', cur', (String a "" :: kept), dropped.
      split; [exact E'|]. split; [exact S'|].
      split; [rewrite M'; exact M1|].
      split; [cbn [app]; now rewrite <- HT|].
      split.
      * rewrite Fk, Hgrow, concat_empty_cons, JSFacts.append_assoc.
        reflexivity.
      * intros Hd. rewrite (Fd Hd), M1. reflexivity.
    + subst w1.
      assert (Hkept : String.concat "" kept = ""%string).
      { destruct (typedShape_flat k w' fulls' cur' S') as (_ & Ln).
        destruct S' as (El' & _ & Hc' & _ & _ & Hn').
        unfold numLines in Hn'. rewrite El', length_app in Hn'.
        cbn [List.length] in Hn'.
        rewrite Fk, JSFacts.len_append, Hlen in Ln.
        pose proof (JSFacts.len_nonneg (String.concat "" kept)) as Hk0.
        assert (JS.len (String.concat "" kept) = 0) by nia.
        destruct (String.concat "" kept);
          [reflexivity | unfold JS.len in *; simpl in *; lia]. }
      rewrite Hkept, JSFacts.append_empty_r in Fk.
      exists w', fulls', cur', [], (String a "" :: typed).
      split; [exact E'|]. split; [exact S'|]. split; [exact M'|].
      split; [reflexivity|].
      split; [cbn [String.concat]; now rewrite JSFacts.append_empty_r|].
      intros _. rewrite Fk. exact Hlen.
Qed.

(** X20. When a line holds exactly [k] code units, typing characters of
    one code unit each, none of them a backslash, into the fresh editor
    wraps them into lines of [k] units, the last one possibly shorter; the
    buffer holds the first characters typed, in order, and all of them
    unless the buffer is completely full, with [k * maxLines] units: only
    then are characters dropped. *)
Theorem X20_typed_text_wraps_into_full_lines
        (host : WindowBase) (k maxLines : Z) (typed : list string) :
  1 <= k ->
  1 <= maxLines ->
  (forall s, (textWidth s <= maxWidth)%Q <-> JS.len s <= k) ->
  Forall plainUnit typed ->
  exists w' fulls cur kept dropped,
    forEach processChar typed (initialize maxLines) = Ok w'
    /\ _lines w' = (fulls ++ [cur])%list
    /\ Forall (fun l => JS.len l = k) fulls
    /\ JS.len cur <= k
    /\ numLines w' <= maxLines
    /\ typed = (kept ++ dropped)%list
    /\ flatText w' = String.concat "" kept
    /\ (dropped <> [] -> JS.len (flatText w') = k * maxLines).
Proof.
  intros Hk Hm Hcap Hp.
  assert (S0 : typedShape k (initialize maxLines) [] "").
  { repeat split; try reflexivity; try constructor.
    - change (JS.len "") with 0. lia.
    - change (numLines (initialize maxLines)) with 1.
      change (_maxLines (initialize maxLines)) with maxLines. lia. }
  destruct (typing_run host k typed Hk Hcap Hp _ _ _ S0)
    as (w' & fulls & cur & kept & dropped & E' & S' & M' & HT & Fk & Fd).
  change (flatText (initialize maxLines)) with ""%string in Fk.
  cbn [append] in Fk.
  change (_maxLines (initialize maxLines)) with maxLines in M', Fd.
  destruct S' as (El' & Hf' & Hc' & _ & _ & Hn').
  exists w', fulls, cur, kept, dropped.
  split; [exact E'|]. split; [exact El'|]. split; [exact Hf'|].
  split; [exact Hc'|]. split; [rewrite <- M'; exact Hn'|].
  split; [exact HT|]. split; [exact Fk|]. exact Fd.
Qed.

Lemma mockHost_capacity (s : string) :
  (@textWidth mockHost s <= @maxWidth mockHost)%Q <-> JS.len s <= 5.
Proof.
  assert (M : (@maxWidth mockHost == 10 * inject_Z 5)%Q) by reflexivity.
  change (@textWidth mockHost s) with (10 * inject_Z (JS.len s))%Q.
  rewrite M, Qmult_le_l by reflexivity.
  rewrite <- Zle_Qle. reflexivity.
Defined.

(** Seventeen characters typed into three lines of five: the last two
    are dropped. *)
Lemma X20_witness :
  1 <= 5
  /\ 1 <= 3
  /\ (forall s, (@textWidth mockHost s <= @maxWidth mockHost)%Q
                <-> JS.len s <= 5)
  /\ Forall plainUnit (JS.chars "abcdefghijklmnopq")
  /\ forEach (@processChar mockHost) (JS.chars "abcdefghijklmnopq")
             (initialize 3)
     = Ok (exWindow 3 ["abcde"; "fghij"; "klmno"]%string 5 2)
  /\ exists w' fulls cur kept dropped,
      forEach (@processChar mockHost) (JS.chars "abcdefghijklmnopq")
              (initialize 3) = Ok w'
      /\ _lines w' = (fulls ++ [cur])%list
      /\ Forall (fun l => JS.len l = 5) fulls
      /\ JS.len cur <= 5
      /\ numLines w' <= 3
      /\ JS.chars "abcdefghijklmnopq" = (kept ++ dropped)%list
      /\ flatText w' = String.concat "" kept
      /\ (dropped <> [] -> JS.len (flatText w') = 5 * 3).
Proof.
  assert (H1 : 1 <= 5) by lia.
  assert (H2 : 1 <= 3) by lia.
  assert (H3 : Forall plainUnit (JS.chars "abcdefghijklmnopq")).
  { cbn [JS.chars].
    repeat (constructor; [eexists; split; [reflexivity | discriminate]|]).
    constructor. }
  split; [exact H1|]. split; [exact H2|]. split; [exact mockHost_capacity|].
  split; [exact H3|]. split; [reflexivity|].
  exact (X20_typed_text_wraps_into_full_lines mockHost 5 3
           (JS.chars "abcdefghijklmnopq") H1 H2 mockHost_capacity H3).
Defined.
